(** * claude-code-voice: push-to-talk capture, transcription and delivery

    A shallow embedding of [claude_code_voice_module.py] and of the
    properties its specification states about it.

    Conventions of the embedding.
    - Python [bytes] are [list byte]; [str] values are [string] (code points
      below 256, which covers every key name and every literal of the module).
    - A Python call that may raise returns a [result]: [Return v] or
      [Raise e]; [try_except] is the [try: ... except Exception:] block.
    - Audio levels are IEEE binary64 values, computed with the executable
      reference arithmetic of [SpecFloat] at precision 53.
    - Clock readings ([time.time()]) and the durations of the configuration
      are rationals; the subtraction of two readings is exact.
    - What the module only observes (microphone, clock, keyboard, recognizer,
      confirmation prompt, persisted file) is an explicit input of the
      function that observes it. *)

From Stdlib Require Import ZArith QArith Bool List Lia Lqa.
From Stdlib Require Import Strings.String Strings.Ascii Strings.Byte.
From Stdlib Require Import Floats.SpecFloat.
Import ListNotations.

Set Implicit Arguments.

Local Open Scope Z_scope.

(* ===================================================================== *)
(** * Python values shared by the components                             *)
(* ===================================================================== *)

(** The exception classes the module can meet. *)
Inductive exn : Type :=
| ValueError        (* numpy: buffer size not a multiple of the element size *)
| TypeError         (* unexpected keyword argument, wrong receiver type *)
| AttributeError    (* missing method on a JSON scalar *)
| JSONDecodeError   (* json.load on malformed text *)
| OSError           (* device, temporary file *)
| RuntimeError.     (* recognizer failure *)

Inductive result (A : Type) : Type :=
| Return (a : A)
| Raise (e : exn).

Arguments Return {A} a.
Arguments Raise {A} e.

Definition bind {A B : Type} (m : result A) (k : A -> result B) : result B :=
  match m with
  | Return a => k a
  | Raise e => Raise e
  end.

Notation "x <- m ;; k" := (bind m (fun x => k))
  (at level 61, m at next level, right associativity).

(** [try: body  except Exception: handler]. *)
Definition try_except {A : Type} (body : result A) (handler : exn -> result A)
  : result A :=
  match body with
  | Return a => Return a
  | Raise e => handler e
  end.

Definition bytes := list byte.

(* ===================================================================== *)
(** * binary64                                                            *)
(* ===================================================================== *)

Module Float64.

Definition prec : Z := 53.
Definition emax : Z := 1024.

Definition float64 := spec_float.

Definition zero : float64 := S754_zero false.
Definition add : float64 -> float64 -> float64 := SFadd prec emax.
Definition mul : float64 -> float64 -> float64 := SFmul prec emax.
Definition div : float64 -> float64 -> float64 := SFdiv prec emax.
Definition sqrt : float64 -> float64 := SFsqrt prec emax.
Definition ltb : float64 -> float64 -> bool := SFltb.
Definition leb : float64 -> float64 -> bool := SFleb.

(** Conversion of an integer, rounded to nearest even. *)
Definition of_Z (z : Z) : float64 := binary_normalize prec emax z 0 false.

Definition isnan (x : float64) : bool :=
  match x with S754_nan => true | _ => false end.

Definition isinf (x : float64) : bool :=
  match x with S754_infinity _ => true | _ => false end.

(** The sum of a float64 array, accumulated from the left.  numpy adds
    pairwise; on the squares of 16-bit samples every partial sum is an
    integer below 2^53 for buffers of fewer than 2^23 samples, so both
    orders give the same, exact, value. *)
Definition sum (l : list float64) : float64 := fold_left add l zero.

(** [np.mean]: the sum divided by the element count. *)
Definition mean (l : list float64) : float64 :=
  div (sum l) (of_Z (Z.of_nat (List.length l))).

(** [int(x)] of a float: truncation toward zero; [OverflowError] and
    [ValueError] on infinities and NaN are reported as [None]. *)
Definition to_int (x : float64) : option Z :=
  match x with
  | S754_zero _ => Some 0
  | S754_finite s m e =>
      let a := match e with
               | Zneg p => Z.shiftr (Zpos m) (Zpos p)
               | _ => Z.shiftl (Zpos m) e
               end in
      Some (if s then - a else a)
  | _ => None
  end.

End Float64.

Import Float64.

(* ===================================================================== *)
(** * Strings: the [str] methods the module calls                         *)
(* ===================================================================== *)

Module Str.

Local Open Scope N_scope.

Definition in_range (lo hi n : N) : bool := (lo <=? n) && (n <=? hi).

(** [str.isspace] on one character (code points below 256). *)
Definition isspace (c : ascii) : bool :=
  let n := N_of_ascii c in
  in_range 9 13 n || in_range 28 32 n || (n =? 133) || (n =? 160).

(** [str.lower] on one character: A-Z and the Latin-1 capitals. *)
Definition lower_char (c : ascii) : ascii :=
  let n := N_of_ascii c in
  if in_range 65 90 n || (in_range 192 222 n && negb (n =? 215))
  then ascii_of_N (n + 32) else c.

Fixpoint lower (s : string) : string :=
  match s with
  | EmptyString => EmptyString
  | String c r => String (lower_char c) (lower r)
  end.

Fixpoint lstrip (s : string) : string :=
  match s with
  | EmptyString => EmptyString
  | String c r => if isspace c then lstrip r else s
  end.

Fixpoint rev_append (s acc : string) : string :=
  match s with
  | EmptyString => acc
  | String c r => rev_append r (String c acc)
  end.

Definition rev (s : string) : string := rev_append s EmptyString.

Definition rstrip (s : string) : string := rev (lstrip (rev s)).

(** [s.strip()]. *)
Definition strip (s : string) : string := rstrip (lstrip s).

(** [s.replace(old, new)] for one-character [old] and [new]. *)
Fixpoint replace (old new : ascii) (s : string) : string :=
  match s with
  | EmptyString => EmptyString
  | String c r =>
      String (if Ascii.eqb c old then new else c) (replace old new r)
  end.

(** [s.split()]: the maximal runs of non-space characters.  [word] is the
    run being read, reversed. *)
Fixpoint split_from (s word : string) : list string :=
  match s with
  | EmptyString =>
      match word with EmptyString => [] | _ => [rev word] end
  | String c r =>
      if isspace c then
        match word with
        | EmptyString => split_from r EmptyString
        | _ => rev word :: split_from r EmptyString
        end
      else split_from r (String c word)
  end.

Definition split (s : string) : list string := split_from s EmptyString.

End Str.

Definition Qgtb (a b : Q) : bool := negb (Qle_bool a b).

(* ===================================================================== *)
(** * VoiceConfig                                                         *)
(* ===================================================================== *)

(** What [json.load] builds. *)
Module Json.

#[warnings="-register-all"] Inductive value : Type :=
| Null
| Bool (b : bool)
| Int (z : Z)
| Float (q : Q)
| Str (s : string)
| Arr (items : list value)
| Obj (members : list (string * value)).

End Json.

Module VoiceConfig.

Import Json.

(** The configuration as the annotations of the dataclass type it. *)
Record t : Type := {
  push_to_talk_key : string;
  whisper_model : string;
  language : string;
  sample_rate : Z;
  channels : Z;
  chunk_size : Z;
  silence_threshold : float64;   (* RMS threshold for silence detection *)
  silence_duration : Q;          (* seconds of silence to stop recording *)
  max_recording_time : Q;        (* maximum recording duration *)
  auto_submit : bool;
  show_audio_levels : bool
}.

Definition default : t := {|
  push_to_talk_key := "right_shift";
  whisper_model := "base";
  language := "en";
  sample_rate := 16000;
  channels := 1;
  chunk_size := 1024;
  silence_threshold := of_Z 100;
  silence_duration := 3 # 2;
  max_recording_time := 30 # 1;
  auto_submit := false;
  show_audio_levels := true
|}.

Definition with_show_audio_levels (b : bool) (c : t) : t := {|
  push_to_talk_key := push_to_talk_key c;
  whisper_model := whisper_model c;
  language := language c;
  sample_rate := sample_rate c;
  channels := channels c;
  chunk_size := chunk_size c;
  silence_threshold := silence_threshold c;
  silence_duration := silence_duration c;
  max_recording_time := max_recording_time c;
  auto_submit := auto_submit c;
  show_audio_levels := b
|}.

Definition with_push_to_talk_key (k : string) (c : t) : t := {|
  push_to_talk_key := k;
  whisper_model := whisper_model c;
  language := language c;
  sample_rate := sample_rate c;
  channels := channels c;
  chunk_size := chunk_size c;
  silence_threshold := silence_threshold c;
  silence_duration := silence_duration c;
  max_recording_time := max_recording_time c;
  auto_submit := auto_submit c;
  show_audio_levels := show_audio_levels c
|}.

(** A Python [dict] with [str] keys, in insertion order; [json.load] keeps
    one entry per key. *)
Definition dict : Type := list (string * value).

Fixpoint get (k : string) (d : dict) : option value :=
  match d with
  | [] => None
  | (k', v) :: d' => if String.eqb k k' then Some v else get k d'
  end.

(** [d.pop(k, None)], for its effect on [d]. *)
Definition pop (k : string) (d : dict) : dict :=
  filter (fun kv => negb (String.eqb k (fst kv))) d.

(** The fields of the dataclass with their defaults, in declaration
    order.  The dataclass does not check the annotations: an instance
    holds whatever value it was given. *)
Definition fields : dict :=
  [ ("push_to_talk_key"%string, Str "right_shift");
    ("whisper_model"%string, Str "base");
    ("language"%string, Str "en");
    ("sample_rate"%string, Int 16000);
    ("channels"%string, Int 1);
    ("chunk_size"%string, Int 1024);
    ("silence_threshold"%string, Int 100);
    ("silence_duration"%string, Float (3 # 2));
    ("max_recording_time"%string, Float (30 # 1));
    ("auto_submit"%string, Bool false);
    ("show_audio_levels"%string, Bool true) ].

Definition is_field (k : string) : bool :=
  match get k fields with Some _ => true | None => false end.

(** [cls] applied to keyword arguments: the generated [__init__] raises [TypeError] on a
    keyword that is no field; the result is the instance's [__dict__]. *)
Definition cls (kwargs : dict) : result dict :=
  if forallb (fun kv => is_field (fst kv)) kwargs then
    Return (map (fun fd =>
                   (fst fd, match get (fst fd) kwargs with
                            | Some v => v
                            | None => snd fd
                            end)) fields)
  else Raise TypeError.

(** [from_file].  [file] is [None] when [config_path] does not exist and
    otherwise the outcome of [json.load] on it. *)
Definition from_file (file : option (result value)) : result dict :=
  match file with
  | Some loaded =>
      data <- loaded ;;
      match data with
      | Obj d =>
          (* Remove deprecated fields if they exist *)
          let d := pop "whisper_mode" d in
          let d := pop "api_key" d in
          cls d
      | Arr _ => Raise TypeError        (* list.pop takes one argument *)
      | _ => Raise AttributeError       (* no pop on a JSON scalar *)
      end
  | None => cls []
  end.

(** [save]: [json.dump] writes the instance's [__dict__]; the result is the
    value [json.load] reads back from the file. *)
Definition save (self : dict) : value := Obj self.



End VoiceConfig.

(* ===================================================================== *)
(** * AudioRecorder                                                       *)
(* ===================================================================== *)

Module AudioRecorder.

Import VoiceConfig.

(** One little-endian signed 16-bit sample. *)
Definition int16_of_bytes (lo hi : byte) : Z :=
  let u := Z.of_N (Byte.to_N lo) + 256 * Z.of_N (Byte.to_N hi) in
  if 32768 <=? u then u - 65536 else u.

(** [np.frombuffer(data, dtype=np.int16)]: [ValueError] when the buffer
    size is not a multiple of the element size. *)
Fixpoint frombuffer_int16 (data : bytes) : result (list Z) :=
  match data with
  | [] => Return []
  | [_] => Raise ValueError
  | lo :: hi :: rest =>
      samples <- frombuffer_int16 rest ;;
      Return (int16_of_bytes lo hi :: samples)
  end.

(** Line 91: [float(rms) if not np.isnan(rms) and not np.isinf(rms) else 0.0]. *)
Definition finite_or_zero (rms : float64) : float64 :=
  if negb (isnan rms) && negb (isinf rms) then rms else zero.

(** [np.sqrt(np.mean(audio_data.astype(np.float64)**2))]. *)
Definition rms_of (audio_data : list Z) : float64 :=
  sqrt (mean (map (fun x => mul x x) (map of_Z audio_data))).

(** The body of the [try] block of [get_audio_level]. *)
Definition get_audio_level_body (data : bytes) : result float64 :=
  audio_data <- frombuffer_int16 data ;;
  if (List.length audio_data =? 0)%nat then Return zero
  else Return (finite_or_zero (rms_of audio_data)).

Definition get_audio_level (data : bytes) : result float64 :=
  try_except (get_audio_level_body data) (fun _ => Return zero).

Inductive color : Type := green | yellow | red.

(** The level bar: [filled] full blocks, then [bar_length - filled] light
    ones, wrapped in a colour tag. *)
Record level_bar : Type := { bar_color : color; bar_filled : Z; bar_empty : Z }.

Definition max_level_default : float64 := of_Z 5000.

(** Python's [min(a, b)]: [b] when [b < a], otherwise [a]. *)
Definition py_min (a b : float64) : float64 := if ltb b a then b else a.

Definition draw_audio_level (level max_level : float64) : result level_bar :=
  let normalized := py_min (div level max_level) (of_Z 1) in
  let bar_length := 30 in
  match to_int (mul (of_Z bar_length) normalized) with
  | None => Raise ValueError
  | Some filled =>
      let c := if ltb normalized (div (of_Z 3) (of_Z 10)) then green
               else if ltb normalized (div (of_Z 7) (of_Z 10)) then yellow
               else red in
      Return {| bar_color := c; bar_filled := filled;
                bar_empty := bar_length - filled |}
  end.

(** ** The recording loop *)

(** What one iteration of the [while] loop observes, in program order. *)
Record tick : Type := {
  t_loop : Q;                  (* [time.time()] of the duration check *)
  stream_read : result bytes;  (* [stream.read(chunk_size, ...)] *)
  t_level : Q;                 (* [time.time()] of the silence branch *)
  should_continue_recording : option bool
    (* the recorder's attribute when the iteration ends; [None]: not set *)
}.

(** [getattr(self, 'should_continue_recording', True)]. *)
Definition getattr_should_continue (a : option bool) : bool :=
  match a with Some b => b | None => true end.

(** Writes to the terminal. *)
Inductive console_event : Type :=
| RecordingBanner
| LevelLine (bar : level_bar) (level : Z)
| MaxTimeReached
| SilenceDetected
| ClearLevelLine.

Inductive stop_reason : Type :=
| StopMaxTime       (* line 134 *)
| StopSilence       (* line 156 *)
| StopSignal        (* line 163 *)
| StopError (e : exn).

(** Lines 153-160: the silence tracker.  Returns the new [silence_start]
    and whether the loop breaks. *)
Definition silence_step (cfg : VoiceConfig.t) (silence_start : option Q)
    (level : float64) (now : Q) : option Q * bool :=
  if ltb level (silence_threshold cfg) then
    match silence_start with
    | None => (Some now, false)
    | Some s =>
        if Qgtb (now - s) (silence_duration cfg) then (silence_start, true)
        else (silence_start, false)
    end
  else (None, false).

Definition min_data_threshold : nat := 5.

(** Lines 146-150: the level line, written once enough chunks are in. *)
Definition show_level (cfg : VoiceConfig.t) (frames : list bytes)
    (level : float64) : result (list console_event) :=
  if (min_data_threshold <=? List.length frames)%nat && show_audio_levels cfg then
    level_bar <- draw_audio_level level max_level_default ;;
    match to_int level with
    | Some n => Return [LevelLine level_bar n]
    | None => Raise ValueError
    end
  else Return [].

Record loop_exit : Type := {
  exit_reason : stop_reason;
  exit_frames : list bytes;
  exit_console : list console_event;
  exit_reads : nat     (* chunks read by this call *)
}.

(** Lines 132-164.  The loop condition [self.recording] is the recorder's
    own attribute, set on line 122 and written nowhere else, so the loop
    leaves through [break] or an exception only.  [None]: the observations
    ran out while the loop was still running. *)
Fixpoint record_loop (cfg : VoiceConfig.t) (start_time : Q) (world : list tick)
    (frames : list bytes) (silence_start : option Q)
    (console : list console_event) (reads : nat) : option loop_exit :=
  match world with
  | [] => None
  | tk :: world' =>
      if Qgtb (t_loop tk - start_time) (max_recording_time cfg) then
        Some {| exit_reason := StopMaxTime; exit_frames := frames;
                exit_console := console ++ [MaxTimeReached];
                exit_reads := reads |}
      else
        match stream_read tk with
        | Raise e =>
            Some {| exit_reason := StopError e; exit_frames := frames;
                    exit_console := console; exit_reads := reads |}
        | Return data =>
            let frames := frames ++ [data] in
            let reads := S reads in
            match get_audio_level data with
            | Raise e =>
                Some {| exit_reason := StopError e; exit_frames := frames;
                        exit_console := console; exit_reads := reads |}
            | Return level =>
                match show_level cfg frames level with
                | Raise e =>
                    Some {| exit_reason := StopError e; exit_frames := frames;
                            exit_console := console; exit_reads := reads |}
                | Return shown =>
                    let console := console ++ shown in
                    let '(silence_start, expired) :=
                      silence_step cfg silence_start level (t_level tk) in
                    if expired then
                      Some {| exit_reason := StopSilence; exit_frames := frames;
                              exit_console := console ++ [SilenceDetected];
                              exit_reads := reads |}
                    else if negb (getattr_should_continue
                                    (should_continue_recording tk)) then
                      Some {| exit_reason := StopSignal; exit_frames := frames;
                              exit_console := console; exit_reads := reads |}
                    else
                      record_loop cfg start_time world' frames silence_start
                                  console reads
                end
            end
        end
  end.

(** The [finally] block: the stream is closed and the level line cleared. *)
Definition finally_console (cfg : VoiceConfig.t) : list console_event :=
  if show_audio_levels cfg then [ClearLevelLine] else [].

Record outcome : Type := {
  returned : result (option bytes);   (* the value of the call *)
  stopped_by : stop_reason;
  frames_read : list bytes;
  chunks_read : nat;
  console_out : list console_event
}.

(** [record_audio]: [start_time] is the clock reading of line 124, [world]
    what the loop observes afterwards. *)
Definition record_audio (cfg : VoiceConfig.t) (start_time : Q)
    (world : list tick) : option outcome :=
  match record_loop cfg start_time world [] None [RecordingBanner] 0 with
  | None => None
  | Some ex =>
      let console := exit_console ex ++ finally_console cfg in
      let value :=
        match exit_reason ex with
        | StopError e => Raise e
        | _ =>
            match exit_frames ex with
            | [] => Return None
            | _ :: _ => Return (Some (List.concat (exit_frames ex)))
            end
        end in
      Some {| returned := value; stopped_by := exit_reason ex;
              frames_read := exit_frames ex; chunks_read := exit_reads ex;
              console_out := console |}
  end.

End AudioRecorder.

(* ===================================================================== *)
(** * WhisperTranscriber                                                  *)
(* ===================================================================== *)

Module WhisperTranscriber.

(** The loaded model together with the temporary WAV file it is run on:
    lines 204-220 either produce [result["text"]] or raise. *)
Definition recognizer : Type := bytes -> result string.

Definition transcribe_local (model : recognizer) (audio_data : bytes)
  : result (option string) :=
  text <- model audio_data ;;
  Return (Some (Str.strip text)).

(** Truth value of [audio_data]: [None] and [b''] are false. *)
Definition truthy_bytes (audio_data : option bytes) : bool :=
  match audio_data with
  | Some (_ :: _) => true
  | _ => false
  end.

Definition transcribe (model : recognizer) (audio_data : option bytes)
  : result (option string) :=
  match audio_data with
  | Some (b :: rest) => transcribe_local model (b :: rest)
  | _ => Return None
  end.

End WhisperTranscriber.

(* ===================================================================== *)
(** * VoiceInput                                                          *)
(* ===================================================================== *)

Module VoiceInput.

Import VoiceConfig.

(** A keyboard event as the handlers see it: the attributes [char] and
    [name], each of which the object may lack.  pynput delivers either a
    [KeyCode] (it has [char], possibly [None], and no [name]) or a member of
    the [Key] enumeration (it has [name] and no [char]). *)
Record key : Type := {
  key_char : option (option string);
  key_name : option string
}.

Definition KeyCode (char : option string) : key :=
  {| key_char := Some char; key_name := None |}.

Definition Key (name : string) : key :=
  {| key_char := None; key_name := Some name |}.

(** Lines 291-298: the reversed spelling of a two-part hotkey. *)
Definition normalized (hotkey : string) : option string :=
  match Str.split (Str.replace "_" " " hotkey) with
  | [side; base] =>
      if String.eqb side "right" then Some (base ++ "_r")%string
      else if String.eqb side "left" then Some (base ++ "_l")%string
      else None
  | _ => None
  end.

Definition matches_named (hotkey name : string) : bool :=
  let key_name := Str.lower name in
  if String.eqb key_name hotkey then true
  else match normalized hotkey with
       | Some n => String.eqb key_name n
       | None => false
       end.

Definition _matches_hotkey (cfg : VoiceConfig.t) (k : key) : bool :=
  let hotkey := Str.lower (push_to_talk_key cfg) in
  match key_char k with
  | Some (Some (String c r)) => String.eqb (Str.lower (String c r)) hotkey
  | _ =>
      match key_name k with
      | Some name => matches_named hotkey name
      | None => false
      end
  end.

(** A worker thread running [_record_and_transcribe]. *)
Inductive worker : Type :=
| Spawned      (* created by line 309, line 322 not yet run *)
| InFlight     (* recording, transcribing or delivering *)
| Finished.

(** The session: the attributes of the [VoiceInput] object, the attribute
    [should_continue_recording] of its recorder ([None] until a worker sets
    it), the threads it started and the calls made to [on_text]. *)
Record t : Type := {
  config : VoiceConfig.t;
  active : bool;
  recording : bool;
  should_continue : option bool;
  integration_mode : bool;
  threads : list worker;
  on_text_calls : list string
}.

(** The object after [__init__] and [start]. *)
Definition started (cfg : VoiceConfig.t) (integration : bool) : t :=
  {| config := cfg; active := true; recording := false;
     should_continue := None; integration_mode := integration;
     threads := []; on_text_calls := [] |}.

Definition set_recording (b : bool) (s : t) : t :=
  {| config := config s; active := active s; recording := b;
     should_continue := should_continue s;
     integration_mode := integration_mode s;
     threads := threads s; on_text_calls := on_text_calls s |}.

Definition set_should_continue (b : option bool) (s : t) : t :=
  {| config := config s; active := active s; recording := recording s;
     should_continue := b;
     integration_mode := integration_mode s;
     threads := threads s; on_text_calls := on_text_calls s |}.

Definition set_threads (ws : list worker) (s : t) : t :=
  {| config := config s; active := active s; recording := recording s;
     should_continue := should_continue s;
     integration_mode := integration_mode s;
     threads := ws; on_text_calls := on_text_calls s |}.

Definition set_active (b : bool) (s : t) : t :=
  {| config := config s; active := b; recording := recording s;
     should_continue := should_continue s;
     integration_mode := integration_mode s;
     threads := threads s; on_text_calls := on_text_calls s |}.

Definition add_on_text_calls (texts : list string) (s : t) : t :=
  {| config := config s; active := active s; recording := recording s;
     should_continue := should_continue s;
     integration_mode := integration_mode s;
     threads := threads s; on_text_calls := on_text_calls s ++ texts |}.

Definition _on_key_press (s : t) (k : key) : t :=
  if negb (active s) || recording s then s
  else if _matches_hotkey (config s) k then
    set_threads (threads s ++ [Spawned]) (set_recording true s)
  else s.

Definition _on_key_release (s : t) (k : key) : t :=
  if _matches_hotkey (config s) k then
    let s := set_recording false s in
    (* Signal the recorder to stop *)
    match should_continue s with
    | Some _ => set_should_continue (Some false) s
    | None => s
    end
  else s.

Definition stop (s : t) : t := set_active false s.

(** What a worker observes after line 322. *)
Record cycle : Type := {
  start_time : Q;
  world : list AudioRecorder.tick;
  model : WhisperTranscriber.recognizer;
  confirm : bool      (* the answer to [Confirm.ask], when asked *)
}.

Inductive status : Type :=
| Transcribing
| Recognized (text : string)
| FailedToTranscribe
| Cancelled.

Record delivery : Type := {
  calls : list string;        (* arguments of the calls to [on_text] *)
  statuses : list status
}.

(** Lines 327-346, from the value [record_audio] returned. *)
Definition transcribe_and_deliver (s : t) (c : cycle)
    (audio_data : option bytes) : result delivery :=
  if WhisperTranscriber.truthy_bytes audio_data then
    text <- WhisperTranscriber.transcribe (model c) audio_data ;;
    match text with
    | Some (String a r) =>
        let text := String a r in
        if auto_submit (config s) || integration_mode s then
          Return {| calls := [text]; statuses := [Transcribing; Recognized text] |}
        else if confirm c then
          Return {| calls := [text]; statuses := [Transcribing; Recognized text] |}
        else
          Return {| calls := [];
                    statuses := [Transcribing; Recognized text; Cancelled] |}
    | _ =>
        Return {| calls := []; statuses := [Transcribing; FailedToTranscribe] |}
    end
  else Return {| calls := []; statuses := [] |}.

(** Lines 324-346 of [_record_and_transcribe]; [None] when the observations
    of [c] end before the recording loop does. *)
Definition _record_and_transcribe (s : t) (c : cycle)
  : option (result delivery) :=
  match AudioRecorder.record_audio (config s) (start_time c) (world c) with
  | None => None
  | Some rec =>
      Some (audio_data <- AudioRecorder.returned rec ;;
            transcribe_and_deliver s c audio_data)
  end.

(** What happens to the session, one atomic action at a time. *)
Inductive event : Type :=
| KeyPress (k : key)                 (* the listener runs [_on_key_press] *)
| KeyRelease (k : key)               (* the listener runs [_on_key_release] *)
| WorkerSetup (i : nat)              (* thread [i] runs line 322 *)
| WorkerDone (i : nat) (c : cycle)   (* thread [i] runs lines 324-346 *)
| Stop.

Fixpoint set_nth (i : nat) (w : worker) (ws : list worker) : list worker :=
  match ws, i with
  | [], _ => []
  | _ :: ws', O => w :: ws'
  | w' :: ws', S i' => w' :: set_nth i' w ws'
  end.

(** [None]: the event cannot happen in this state. *)
Definition step (s : t) (e : event) : option t :=
  match e with
  | KeyPress k => Some (_on_key_press s k)
  | KeyRelease k => Some (_on_key_release s k)
  | WorkerSetup i =>
      match nth_error (threads s) i with
      | Some Spawned =>
          Some (set_threads (set_nth i InFlight (threads s))
                  (set_should_continue (Some true) s))
      | _ => None
      end
  | WorkerDone i c =>
      match nth_error (threads s) i with
      | Some InFlight =>
          match _record_and_transcribe s c with
          | None => None
          | Some r =>
              let s := set_threads (set_nth i Finished (threads s)) s in
              match r with
              | Return d => Some (add_on_text_calls (calls d) s)
              | Raise _ => Some s     (* the thread dies with the exception *)
              end
          end
      | _ => None
      end
  | Stop => Some (stop s)
  end.

Fixpoint run (s : t) (es : list event) : option t :=
  match es with
  | [] => Some s
  | e :: es' =>
      match step s e with
      | Some s' => run s' es'
      | None => None
      end
  end.

Definition is_live (w : worker) : bool :=
  match w with Finished => false | _ => true end.

(** The capture cycles that were started and have not completed. *)
Definition live_cycles (s : t) : nat :=
  List.length (filter is_live (threads s)).

End VoiceInput.

(* ===================================================================== *)
(** * configure_voice: the interactive configuration                      *)
(* ===================================================================== *)

Module ConfigureVoice.

Import Json VoiceConfig VoiceInput.

(** Lines 375-381: what the listener keeps of the first key pressed. *)
Definition on_key_press (k : key) : option string :=
  match key_char k with
  | Some (Some (String c r)) => Some (String c r)
  | _ => key_name k
  end.

(** One call of [input]: the line typed, or [KeyboardInterrupt]/[EOFError]. *)
Inductive answer : Type :=
| Line (s : string)
| Interrupted.

(** What the user does during one run. *)
Record session : Type := {
  pressed : key;
  language_answer : answer;
  model_answer : answer;
  silence_answer : answer;
  threshold_answer : answer
}.





End ConfigureVoice.

(* ===================================================================== *)
(** * Vocabulary of the statements                                        *)
(* ===================================================================== *)

(** A binary64 value that is neither NaN nor infinite and compares [>= 0.0]. *)
Definition finite_nonneg (x : float64) : Prop :=
  isnan x = false /\ isinf x = false /\ leb zero x = true.

(** The mantissa of a shift record is non-negative with at most [d] digits. *)
Definition fits (d : Z) (mrs : shr_record) : Prop :=
  0 <= shr_m mrs /\ Zdigits2 (shr_m mrs) <= Z.max 0 d.

(** Whether a shift record has seen a non-zero bit leave. *)
Definition sticky (mrs : shr_record) : bool := shr_r mrs || shr_s mrs.

(** The mantissa of the record is [m0] shifted right by [k], and the record
    is sticky only when bits were lost. *)
Definition floor_of (m0 k : Z) (mrs : shr_record) : Prop :=
  0 <= shr_m mrs
  /\ shr_m mrs * 2 ^ k <= m0
  /\ (sticky mrs = true -> shr_m mrs * 2 ^ k < m0).

(** The mantissa of a shift record is non-negative with at least [d]
    digits. *)
Definition at_least (d : Z) (mrs : shr_record) : Prop :=
  0 <= shr_m mrs /\ d <= Zdigits2 (shr_m mrs).

(** Two exits of the recording loop that differ at most in what was written
    to the terminal. *)
Definition same_exit (a b : AudioRecorder.loop_exit) : Prop :=
  AudioRecorder.exit_reason a = AudioRecorder.exit_reason b
  /\ AudioRecorder.exit_frames a = AudioRecorder.exit_frames b
  /\ AudioRecorder.exit_reads a = AudioRecorder.exit_reads b.






(** The keys [from_file] accepts in a saved object. *)
Definition accepted_key (k : string) : Prop :=
  k = "whisper_mode"%string \/ k = "api_key"%string
  \/ VoiceConfig.is_field k = true.

(** ** Sample inputs *)

(** Two samples, 3 and 4: level about 3.5. *)
Definition quiet_chunk : bytes := [x03; x00; x04; x00]%byte.

(** Two samples of 16384: level 16384. *)
Definition loud_chunk : bytes := [x00; x40; x00; x40]%byte.

(** An iteration that starts [ms] milliseconds after the epoch and reads a
    chunk for 64 ms (1024 samples at 16 kHz). *)
Definition tick_at (ms : Z) (data : bytes) (keep : bool) : AudioRecorder.tick :=
  {| AudioRecorder.t_loop := ms # 1000;
     AudioRecorder.stream_read := Return data;
     AudioRecorder.t_level := (ms + 64) # 1000;
     AudioRecorder.should_continue_recording := Some keep |}.

(** The trigger written with a space and with an underscore. *)
Definition spaced_trigger : VoiceConfig.t :=
  VoiceConfig.with_push_to_talk_key "right shift" VoiceConfig.default.

Definition underscored_trigger : VoiceConfig.t :=
  VoiceConfig.with_push_to_talk_key "right_shift" VoiceConfig.default.

(** A recognizer that fails, and one that hears only blanks. *)
Definition failing_model : WhisperTranscriber.recognizer :=
  fun _ => Raise RuntimeError.

Definition blank_model : WhisperTranscriber.recognizer :=
  fun _ => Return "  "%string.

Definition hello_model : WhisperTranscriber.recognizer :=
  fun _ => Return " hello world "%string.

(** The right shift key as pynput names it. *)
Definition shift_r : VoiceInput.key := VoiceInput.Key "shift_r".

(** A session whose only worker is recording while the key is held. *)
Definition key_held_session : VoiceInput.t :=
  {| VoiceInput.config := VoiceConfig.default;
     VoiceInput.active := true;
     VoiceInput.recording := true;
     VoiceInput.should_continue := Some true;
     VoiceInput.integration_mode := true;
     VoiceInput.threads := [VoiceInput.InFlight];
     VoiceInput.on_text_calls := [] |}.

(** A saved configuration with a field the dataclass does not declare. *)
Definition unknown_field_file : Json.value :=
  Json.Obj [("language"%string, Json.Str "fr");
            ("noise_gate"%string, Json.Int 3)].

(** A saved configuration from a version that still had the API mode. *)
Definition old_version_file : Json.value :=
  Json.Obj [("whisper_mode"%string, Json.Str "api");
            ("api_key"%string, Json.Str "sk");
            ("language"%string, Json.Str "fr")].




Definition gives_up_at_model : ConfigureVoice.session :=
  {| ConfigureVoice.pressed := VoiceInput.Key "f9";
     ConfigureVoice.language_answer := ConfigureVoice.Line "de";
     ConfigureVoice.model_answer := ConfigureVoice.Interrupted;
     ConfigureVoice.silence_answer := ConfigureVoice.Line "2";
     ConfigureVoice.threshold_answer := ConfigureVoice.Line "" |}.


(** The cycles that have run to their end. *)
Definition is_finished (w : VoiceInput.worker) : bool :=
  match w with VoiceInput.Finished => true | _ => false end.

Definition finished_cycles (s : VoiceInput.t) : nat :=
  List.length (filter is_finished (VoiceInput.threads s)).

(** What every step keeps: no more calls to [on_text] than completed
    cycles, and no call with the empty string. *)
Definition calls_accounted (s : VoiceInput.t) : Prop :=
  (List.length (VoiceInput.on_text_calls s) <= finished_cycles s)%nat
  /\ Forall (fun text => text <> ""%string) (VoiceInput.on_text_calls s).

(** The releases of the trigger key among the events. *)
Fixpoint trigger_releases (cfg : VoiceConfig.t) (es : list VoiceInput.event)
  : nat :=
  match es with
  | [] => O
  | VoiceInput.KeyRelease k :: es' =>
      if VoiceInput._matches_hotkey cfg k then S (trigger_releases cfg es')
      else trigger_releases cfg es'
  | _ :: es' => trigger_releases cfg es'
  end.

(** What the gate of [_on_key_press] counts: the threads started, and one
    more when the flag is clear. *)
Definition gate_credit (s : VoiceInput.t) : nat :=
  (List.length (VoiceInput.threads s)
   + if VoiceInput.recording s then 0 else 1)%nat.

(** A session that asks for confirmation, with a worker that just started. *)
Definition confirming_session : VoiceInput.t :=
  {| VoiceInput.config := VoiceConfig.default;
     VoiceInput.active := true;
     VoiceInput.recording := true;
     VoiceInput.should_continue := None;
     VoiceInput.integration_mode := false;
     VoiceInput.threads := [VoiceInput.Spawned];
     VoiceInput.on_text_calls := [] |}.

(** A cycle that hears "hello world" and whose user declines. *)
Definition declined_cycle : VoiceInput.cycle :=
  {| VoiceInput.start_time := 0;
     VoiceInput.world := [tick_at 0 loud_chunk false];
     VoiceInput.model := hello_model;
     VoiceInput.confirm := false |}.

(** Terminal lines that show a level. *)
Definition is_level_line (e : AudioRecorder.console_event) : bool :=
  match e with AudioRecorder.LevelLine _ _ => true | _ => false end.


(** An iteration whose chunk is read and is below the silence threshold. *)
Definition silent_tick (cfg : VoiceConfig.t) (tk : AudioRecorder.tick) : Prop :=
  exists data level,
    AudioRecorder.stream_read tk = Return data
    /\ AudioRecorder.get_audio_level data = Return level
    /\ ltb level (VoiceConfig.silence_threshold cfg) = true.

(** The silence timestamp is the clock reading of an iteration already run,
    and every iteration since was silent. *)
Definition tracked (cfg : VoiceConfig.t) (silence_start : option Q)
    (consumed : list AudioRecorder.tick) : Prop :=
  match silence_start with
  | None => True
  | Some s =>
      exists pre first mid,
        consumed = pre ++ first :: mid
        /\ Forall (silent_tick cfg) (first :: mid)
        /\ AudioRecorder.t_level first = s
  end.



(** Six loud chunks, the key released during the sixth. *)
Definition six_chunks : list AudioRecorder.tick :=
  [tick_at 0 loud_chunk true; tick_at 64 loud_chunk true;
   tick_at 128 loud_chunk true; tick_at 192 loud_chunk true;
   tick_at 256 loud_chunk true; tick_at 320 loud_chunk false].

(** A second of silence followed by one more silent chunk a second later. *)
Definition long_silence : list AudioRecorder.tick :=
  [tick_at 0 loud_chunk true; tick_at 64 quiet_chunk true;
   tick_at 1000 quiet_chunk true; tick_at 2000 quiet_chunk true].

(** The first and the last character of a string. *)
Definition first_char (s : string) : option ascii :=
  match s with
  | EmptyString => None
  | String c _ => Some c
  end.

Fixpoint last_char (s : string) : option ascii :=
  match s with
  | EmptyString => None
  | String c EmptyString => Some c
  | String _ r => last_char r
  end.

Definition is_space (c : option ascii) : bool :=
  match c with Some c => Str.isspace c | None => false end.

(** No whitespace at either end. *)
Definition trimmed (s : string) : Prop :=
  is_space (first_char s) = false /\ is_space (last_char s) = false.

(** A key name of one word: no whitespace and no underscore. *)
Fixpoint wordlike (s : string) : bool :=
  match s with
  | EmptyString => true
  | String c r =>
      negb (Str.isspace c) && negb (Ascii.eqb c "_") && wordlike r
  end.

(** The spellings of a modifier key with a side. *)
Definition side_name (right : bool) : string :=
  if right then "right"%string else "left"%string.

Definition side_suffix (right : bool) : string :=
  if right then "_r"%string else "_l"%string.

Definition separator (underscore : bool) : string :=
  if underscore then "_"%string else " "%string.

(* ===================================================================== *)
(** * Facts about binary64 rounding                                       *)
(* ===================================================================== *)

Section Binary64Facts.

Lemma digits2_pos_size (p : positive) : digits2_pos p = Pos.size p.
Proof. induction p; cbn; congruence. Qed.

Lemma Zdigits2_nonneg (m : Z) : 0 <= Zdigits2 m.
Proof. destruct m; cbn; lia. Qed.

(** A non-negative integer is below two to the number of its digits. *)
Lemma Zdigits2_gt (m : Z) : 0 <= m -> m < 2 ^ Zdigits2 m.
Proof.
  destruct m as [|p|p]; cbn [Zdigits2]; [reflexivity| |lia]. intros _.
  rewrite digits2_pos_size.
  pose proof (Pos.size_gt p) as H.
  rewrite <- Pos2Z.inj_pow. lia.
Qed.

(** An integer below [2^k] has at most [k] digits. *)
Lemma Zdigits2_le (m k : Z) : 0 <= m -> 0 <= k -> m < 2 ^ k -> Zdigits2 m <= k.
Proof.
  destruct m as [|p|p]; cbn [Zdigits2]; [lia| |lia]. intros _ Hk H.
  rewrite digits2_pos_size.
  pose proof (Pos.size_le p) as Hle.
  assert (2 ^ Z.pos (Pos.size p) <= 2 * Z.pos p) as Hz.
  { rewrite <- Pos2Z.inj_pow. lia. }
  assert (2 ^ Z.pos (Pos.size p) < 2 ^ (k + 1)) as Hlt.
  { rewrite Z.pow_add_r by lia. change (2 ^ 1) with 2. lia. }
  apply Z.pow_lt_mono_r_iff in Hlt; lia.
Qed.

Lemma Zdigits2_succ (m m1 : Z) :
  0 <= m -> 0 <= m1 <= m + 1 -> Zdigits2 m1 <= Zdigits2 m + 1.
Proof.
  intros Hm Hm1. pose proof (Zdigits2_nonneg m) as Hd.
  apply Zdigits2_le; try lia.
  pose proof (Zdigits2_gt Hm) as H.
  rewrite Z.pow_add_r by lia. change (2 ^ 1) with 2. lia.
Qed.

Lemma Zdigits2_mul (a b : positive) :
  Zdigits2 (Z.pos (a * b)) <= Zdigits2 (Z.pos a) + Zdigits2 (Z.pos b).
Proof.
  pose proof (Zdigits2_nonneg (Z.pos a)) as Ha.
  pose proof (Zdigits2_nonneg (Z.pos b)) as Hb.
  apply Zdigits2_le; try lia.
  rewrite Z.pow_add_r by lia.
  pose proof (@Zdigits2_gt (Z.pos a) ltac:(lia)).
  pose proof (@Zdigits2_gt (Z.pos b) ltac:(lia)).
  rewrite Pos2Z.inj_mul. nia.
Qed.

Lemma shr_1_fits (d : Z) (mrs : shr_record) :
  fits d mrs -> fits (d - 1) (shr_1 mrs).
Proof.
  destruct mrs as [m r s]. unfold fits, shr_1. cbn [shr_m].
  destruct m as [|[p|p|]|p]; cbn [shr_m Zdigits2 digits2_pos]; lia.
Qed.

Lemma iter_shr_1_fits (p : positive) :
  forall d mrs, fits d mrs -> fits (d - Z.pos p) (iter_pos shr_1 p mrs).
Proof.
  induction p as [p IH|p IH|]; intros d mrs H; cbn [iter_pos].
  - apply shr_1_fits, IH, IH in H.
    replace (d - Z.pos p~1) with (d - 1 - Z.pos p - Z.pos p) by lia. exact H.
  - apply IH, IH in H.
    replace (d - Z.pos p~0) with (d - Z.pos p - Z.pos p) by lia. exact H.
  - apply shr_1_fits, H.
Qed.

Lemma shr_m_of_loc (m : Z) (l : location) : shr_m (shr_record_of_loc m l) = m.
Proof. destruct l as [|[]]; reflexivity. Qed.

(** Shifting to the exponent [fexp] asks for leaves at most 53 digits. *)
Lemma shr_fexp_bounds (m e : Z) (l : location) :
  0 <= m ->
  let '(mrs, e') := shr_fexp prec emax m e l in
  0 <= shr_m mrs
  /\ Zdigits2 (shr_m mrs) <= 53
  /\ e' <= Z.max e (Z.max (Zdigits2 m + e - 53) (-1074))
  /\ Zdigits2 (shr_m mrs) + e' <= Z.max (Zdigits2 m + e) e'.
Proof.
  intros Hm. unfold shr_fexp, shr.
  pose proof (Zdigits2_nonneg m) as Hd.
  assert (fits (Zdigits2 m) (shr_record_of_loc m l)) as Hfit.
  { unfold fits. rewrite shr_m_of_loc. lia. }
  destruct (fexp prec emax (Zdigits2 m + e) - e) as [|p|p] eqn:En;
    unfold fexp, emin, prec, emax in En.
  - rewrite shr_m_of_loc. lia.
  - apply (iter_shr_1_fits p) in Hfit. destruct Hfit as [H0 H1]. lia.
  - rewrite shr_m_of_loc. lia.
Qed.

Lemma round_nearest_even_bounds (m : Z) (l : location) :
  0 <= m -> 0 <= round_nearest_even m l <= m + 1.
Proof.
  intros Hm. unfold round_nearest_even.
  destruct l as [|[]]; try destruct (Z.even m); lia.
Qed.

(** Rounding a non-negative mantissa: the result is no NaN, a finite result
    has at most 53 digits, and there is no overflow while both the exponent
    and the magnitude stay within range. *)
Lemma binary_round_aux_bounds (s : bool) (m e : Z) (l : location) :
  0 <= m ->
  let r := binary_round_aux prec emax s m e l in
  isnan r = false
  /\ (forall s' m' e', r = S754_finite s' m' e' ->
        Z.pos (digits2_pos m') <= 53 /\ e' <= 971)
  /\ (e <= 971 -> Zdigits2 m + e <= 1023 -> isinf r = false).
Proof.
  intros Hm. unfold binary_round_aux.
  pose proof (shr_fexp_bounds e l Hm) as H1.
  destruct (shr_fexp prec emax m e l) as [mrs' e1].
  destruct H1 as (H1a & H1b & H1c & H1d).
  pose proof (round_nearest_even_bounds (loc_of_shr_record mrs') H1a) as Hr.
  set (m1 := round_nearest_even (shr_m mrs') (loc_of_shr_record mrs')) in *.
  pose proof (@Zdigits2_succ (shr_m mrs') m1 H1a Hr) as Hd1.
  pose proof (@shr_fexp_bounds m1 e1 loc_Exact (proj1 Hr)) as H2.
  destruct (shr_fexp prec emax m1 e1 loc_Exact) as [mrs'' e2].
  destruct H2 as (H2a & H2b & H2c & H2d).
  destruct (shr_m mrs'') as [|p|p] eqn:Em; [| |lia].
  - cbn. split; [reflexivity|]. split; [discriminate|reflexivity].
  - cbn [Zdigits2] in H2b.
    destruct (Z.leb e2 (Z.sub emax prec)) eqn:El; cbn.
    + apply Z.leb_le in El. unfold emax, prec in El.
      split; [reflexivity|]. split; [|reflexivity].
      intros s' m' e' E. injection E as <- <- <-. lia.
    + apply Z.leb_gt in El. unfold emax, prec in El.
      split; [reflexivity|]. split; [discriminate|].
      intros He HD. lia.
Qed.

Lemma SFdiv_core_binary_nonneg (m1 m2 : positive) (e1 e2 : Z) :
  0 <= fst (fst (SFdiv_core_binary prec emax (Z.pos m1) e1 (Z.pos m2) e2)).
Proof.
  unfold SFdiv_core_binary.
  set (e' := Z.min _ _). set (sh := e1 - e2 - e').
  set (m' := match sh with Z.pos _ => Z.shiftl (Z.pos m1) sh | 0 => Z.pos m1
                        | Z.neg _ => 0 end).
  assert (0 <= m') as Hm'.
  { unfold m'. destruct sh; try lia. apply Z.shiftl_nonneg. lia. }
  pose proof (Z.div_pos m' (Z.pos m2) Hm' ltac:(lia)) as Hq.
  unfold Z.div in Hq. destruct (Z.div_eucl m' (Z.pos m2)) as [q r]. exact Hq.
Qed.

End Binary64Facts.

(* ===================================================================== *)
(** * Properties of the level meter                                       *)
(* ===================================================================== *)

Section LevelMeter.

Import AudioRecorder.

(** Rounding a mantissa with a positive sign never yields a negative value. *)
Lemma binary_round_aux_positive (m e : Z) (l : location) :
  match binary_round_aux prec emax false m e l with
  | S754_zero s | S754_infinity s | S754_finite s _ _ => s = false
  | S754_nan => True
  end.
Proof.
  unfold binary_round_aux.
  destruct (shr_fexp prec emax m e l) as [mrs' e'].
  destruct (shr_fexp prec emax _ e' loc_Exact) as [mrs'' e''].
  destruct (shr_m mrs''); [reflexivity| |exact I].
  destruct (Z.leb e'' (Z.sub emax prec)); reflexivity.
Qed.

(** A square root is NaN, or it is not below zero. *)
Lemma sqrt_nan_or_nonneg (x : float64) :
  isnan (sqrt x) = true \/ leb zero (sqrt x) = true.
Proof.
  destruct x as [s|[|]| |[|] m e]; simpl; auto.
  unfold sqrt, SFsqrt.
  destruct (SFsqrt_core_binary prec emax (Z.pos m) e) as [[mz ez] lz].
  pose proof (binary_round_aux_positive mz ez lz) as H.
  destruct (binary_round_aux prec emax false mz ez lz); subst; simpl; auto.
Qed.

Lemma finite_or_zero_sqrt (x : float64) : finite_nonneg (finite_or_zero (sqrt x)).
Proof.
  unfold finite_or_zero, finite_nonneg.
  destruct (sqrt_nan_or_nonneg x) as [H|H].
  - rewrite H. simpl. auto.
  - destruct (sqrt x); simpl in *; auto.
Qed.

Lemma get_audio_level_body_cases (data : bytes) :
  (exists e, get_audio_level_body data = Raise e) \/
  get_audio_level_body data = Return zero \/
  (exists x, get_audio_level_body data = Return (finite_or_zero (sqrt x))).
Proof.
  unfold get_audio_level_body, bind.
  destruct (frombuffer_int16 data) as [samples|e]; [|left; eauto].
  destruct (List.length samples =? 0)%nat; right; [left; reflexivity|].
  right. unfold rms_of. eauto.
Qed.

(** Every call returns, and what it returns is a finite level [>= 0.0]. *)
Lemma get_audio_level_returns (data : bytes) :
  exists level, get_audio_level data = Return level /\ finite_nonneg level.
Proof.
  unfold get_audio_level.
  destruct (get_audio_level_body_cases data) as [[e H]|[H|[x H]]]; rewrite H; simpl.
  - exists zero. repeat split.
  - exists zero. repeat split.
  - eexists. split; [reflexivity|apply finite_or_zero_sqrt].
Qed.

(** ** The level display never raises on a finite level *)

Lemma to_int_finite (x : float64) :
  isnan x = false -> isinf x = false -> exists n, to_int x = Some n.
Proof. destruct x; cbn; try discriminate; eauto. Qed.

(** The product of the bar length and a fill ratio that is at most one. *)
Lemma mul_bar_length_finite (x : float64) :
  isnan x = false -> leb zero x = true -> ltb (of_Z 1) x = false ->
  (forall s m e, x = S754_finite s m e -> Z.pos (digits2_pos m) <= 53) ->
  exists n, to_int (mul (of_Z 30) x) = Some n.
Proof.
  intros Hnan Hpos Hle Hdig.
  destruct x as [s|s| |s m e]; try discriminate.
  - destruct s; cbn; eauto.
  - destruct s; discriminate.
  - destruct s; [discriminate|].
    specialize (Hdig false m e eq_refl).
    assert (e <= -52) as He.
    { change (of_Z 1) with (S754_finite false 4503599627370496 (-52)) in Hle.
      unfold ltb, SFltb, SFcompare in Hle.
      destruct (Z.compare_spec (-52) e); try discriminate; lia. }
    change (of_Z 30) with (S754_finite false 8444249301319680 (-48)).
    unfold mul, SFmul. cbn [xorb].
    pose proof (@binary_round_aux_bounds false
                  (Z.pos (8444249301319680 * m)) (-48 + e) loc_Exact
                  ltac:(lia)) as (Hn & _ & Hi).
    apply to_int_finite; [exact Hn|]. apply Hi; [lia|].
    pose proof (Zdigits2_mul 8444249301319680 m) as Hm.
    change (Zdigits2 (Z.pos 8444249301319680)) with 53 in Hm.
    cbn [Zdigits2] in Hm |- *. lia.
Qed.

Lemma draw_audio_level_returns (level : float64) :
  finite_nonneg level ->
  exists bar, draw_audio_level level max_level_default = Return bar.
Proof.
  intros (Hnan & Hinf & Hpos).
  unfold draw_audio_level.
  set (x := div level max_level_default).
  assert (isnan x = false /\ leb zero x = true
          /\ forall s m e, x = S754_finite s m e -> Z.pos (digits2_pos m) <= 53)
    as (Hxn & Hx0 & Hxd).
  { unfold x. change max_level_default with (S754_finite false 5497558138880000 (-40)).
    destruct level as [s|s| |s m e]; try discriminate.
    - cbn. repeat split; auto; discriminate.
    - destruct s; [discriminate|].
      unfold div, SFdiv. cbn [xorb].
      pose proof (SFdiv_core_binary_nonneg m 5497558138880000 e (-40)) as Hq.
      destruct (SFdiv_core_binary prec emax (Z.pos m) e
                  (Z.pos 5497558138880000) (-40)) as [[mz ez] lz].
      cbn [fst] in Hq.
      pose proof (@binary_round_aux_bounds false mz ez lz Hq) as (Hn & Hd & _).
      pose proof (binary_round_aux_positive mz ez lz) as Hs.
      destruct (binary_round_aux prec emax false mz ez lz) as [s|s| |s m' e'];
        subst; cbn; repeat split; auto; try discriminate.
      + intros s0 m0 e0 E. injection E as <- <- <-.
        exact (proj1 (Hd false m' e' eq_refl)).
  }
  clearbody x. unfold py_min.
  destruct (ltb (of_Z 1) x) eqn:Hlt.
  - cbn. eauto.
  - destruct (mul_bar_length_finite Hxn Hx0 Hlt Hxd) as [n Hn].
    rewrite Hn. eauto.
Qed.

Lemma show_level_returns (cfg : VoiceConfig.t) (frames : list bytes)
    (level : float64) :
  finite_nonneg level -> exists out, show_level cfg frames level = Return out.
Proof.
  intros H. unfold show_level.
  destruct (_ && _); [|eauto].
  destruct (draw_audio_level_returns H) as [bar ->]. cbn [bind].
  destruct H as (Hn & Hi & _).
  destruct (to_int_finite level Hn Hi) as [n ->]. eauto.
Qed.

(** C10: [get_audio_level] returns on every byte string, never raises, and
    its result is a finite binary64 value that is not below zero; a buffer
    that does not decode (odd size), an empty buffer, and a NaN or infinite
    RMS all give 0.0. *)
Theorem get_audio_level_total_finite_nonneg :
  (forall data : bytes,
      exists level, get_audio_level data = Return level /\ finite_nonneg level)
  /\ (forall (data : bytes) (e : exn),
         frombuffer_int16 data = Raise e -> get_audio_level data = Return zero)
  /\ get_audio_level [] = Return zero
  /\ finite_or_zero S754_nan = zero
  /\ (forall s : bool, finite_or_zero (S754_infinity s) = zero).
Proof.
  split; [exact get_audio_level_returns|].
  split.
  - intros data e H. unfold get_audio_level, get_audio_level_body.
    rewrite H. reflexivity.
  - split; [reflexivity|]. split; [reflexivity|]. intros s. reflexivity.
Qed.

(** The theorem at a three-byte buffer, which numpy refuses to decode. *)
Lemma get_audio_level_total_finite_nonneg_witness :
  frombuffer_int16 [x03; x00; x04]%byte = Raise ValueError
  /\ get_audio_level [x03; x00; x04]%byte = Return zero.
Proof.
  split; [reflexivity|].
  apply (proj1 (proj2 get_audio_level_total_finite_nonneg)
           [x03; x00; x04]%byte ValueError).
  reflexivity.
Defined.

End LevelMeter.

(* ===================================================================== *)
(** * Properties of the recording loop                                    *)
(* ===================================================================== *)

Lemma Qgtb_true (a b : Q) : Qgtb a b = true <-> (b < a)%Q.
Proof.
  unfold Qgtb. rewrite negb_true_iff, <- not_true_iff_false, Qle_bool_iff.
  split; [apply Qnot_le_lt | apply Qlt_not_le].
Qed.



Section RecordingLoop.

Import VoiceConfig AudioRecorder.



(** ** The level display is presentation only *)

Lemma silence_step_with_show (b : bool) (cfg : VoiceConfig.t)
    (ss : option Q) (level : float64) (now : Q) :
  silence_step (with_show_audio_levels b cfg) ss level now
  = silence_step cfg ss level now.
Proof. reflexivity. Qed.

Lemma record_loop_display_irrelevant (cfg : VoiceConfig.t) (start : Q) :
  forall world frames ss console1 console2 reads,
    match record_loop (with_show_audio_levels true cfg) start world
                      frames ss console1 reads,
          record_loop (with_show_audio_levels false cfg) start world
                      frames ss console2 reads with
    | Some a, Some b => same_exit a b
    | None, None => True
    | _, _ => False
    end.
Proof.
  induction world as [|tk world IH]; intros frames ss c1 c2 reads;
    cbn [record_loop]; [exact I|].
  change (max_recording_time (with_show_audio_levels true cfg))
    with (max_recording_time cfg).
  change (max_recording_time (with_show_audio_levels false cfg))
    with (max_recording_time cfg).
  destruct (Qgtb (t_loop tk - start) (max_recording_time cfg));
    [repeat split|].
  destruct (stream_read tk) as [data|e]; [|repeat split].
  destruct (get_audio_level_returns data) as (level & -> & Hfin).
  destruct (show_level_returns (with_show_audio_levels true cfg)
              (frames ++ [data]) Hfin) as [out1 ->].
  destruct (show_level_returns (with_show_audio_levels false cfg)
              (frames ++ [data]) Hfin) as [out2 ->].
  rewrite !silence_step_with_show.
  destruct (silence_step cfg ss level (t_level tk)) as [ss' [|]];
    [repeat split|].
  destruct (negb (getattr_should_continue (should_continue_recording tk)));
    [repeat split|].
  apply IH.
Qed.

(** C9: two calls of [record_audio] that observe the same chunks, clock and
    continue-signal and differ only in [show_audio_levels] stop for the same
    reason after the same number of reads and return the same bytes (or
    both are still running when the observations end). *)
Theorem show_audio_levels_is_presentation_only
    (cfg : VoiceConfig.t) (start : Q) (world : list tick) :
  match record_audio (with_show_audio_levels true cfg) start world,
        record_audio (with_show_audio_levels false cfg) start world with
  | Some shown, Some hidden =>
      stopped_by shown = stopped_by hidden
      /\ returned shown = returned hidden
      /\ chunks_read shown = chunks_read hidden
  | None, None => True
  | _, _ => False
  end.
Proof.
  unfold record_audio.
  pose proof (record_loop_display_irrelevant cfg start world [] None
                [RecordingBanner] [RecordingBanner] 0) as H.
  destruct (record_loop (with_show_audio_levels true cfg) _ _ _ _ _ _) as [a|];
    destruct (record_loop (with_show_audio_levels false cfg) _ _ _ _ _ _) as [b|];
    try exact H.
  destruct H as (Hr & Hf & Hn). cbn. rewrite Hr, Hf. auto.
Qed.

(** ** The hard cap on the recording time *)







End RecordingLoop.

(* ===================================================================== *)
(** * Properties of silence tracking                                      *)
(* ===================================================================== *)

Section SilenceTracking.

Import VoiceConfig AudioRecorder.

Variable cfg : VoiceConfig.t.











End SilenceTracking.



(* ===================================================================== *)
(** * Properties of the hotkey binding                                    *)
(* ===================================================================== *)

Section HotkeyBinding.

Import VoiceConfig VoiceInput.

Lemma lower_char_idempotent (c : ascii) :
  Str.lower_char (Str.lower_char c) = Str.lower_char c.
Proof. destruct c as [[] [] [] [] [] [] [] []]; reflexivity. Qed.

Lemma lower_idempotent (s : string) : Str.lower (Str.lower s) = Str.lower s.
Proof.
  induction s as [|c s IH]; cbn; [reflexivity|].
  rewrite lower_char_idempotent, IH. reflexivity.
Qed.

(** What [normalized] can be: the second word, suffixed by the side. *)
Lemma normalized_spec (hotkey n : string) :
  normalized hotkey = Some n
  <-> exists base,
        (Str.split (Str.replace "_" " " hotkey) = ["right"; base]%string
         /\ n = (base ++ "_r")%string)
        \/ (Str.split (Str.replace "_" " " hotkey) = ["left"; base]%string
            /\ n = (base ++ "_l")%string).
Proof.
  unfold normalized.
  destruct (Str.split (Str.replace "_" " " hotkey)) as [|side [|base [|x l]]].
  1,2,4: split; [discriminate|]; intros (b & [[H _]|[H _]]); discriminate.
  destruct (String.eqb_spec side "right") as [->|Hr].
  - split.
    + intros H. injection H as <-. exists base. left. auto.
    + intros (b & [[H ->]|[H ->]]); injection H as <-; try discriminate.
      reflexivity.
  - destruct (String.eqb_spec side "left") as [->|Hl].
    + split.
      * intros H. injection H as <-. exists base. right. auto.
      * intros (b & [[H ->]|[H ->]]); injection H as <-; try discriminate.
        reflexivity.
    + split; [discriminate|].
      intros (b & [[H _]|[H _]]); injection H as -> _; contradiction.
Qed.

(** C7, as the code has it: the configured name is compared as it is
    written, so the trigger "right shift" accepts the events "shift_r" and
    rejects "right_shift" and "shift_l", while the trigger "right_shift"
    accepts both "shift_r" and "right_shift" and rejects "shift_l".  Both
    names are lowered before they are compared, and a named key matches in
    no other way than by its name or by the side-suffixed spelling. *)
Theorem hotkey_side_aliasing :
  (_matches_hotkey spaced_trigger (Key "shift_r") = true
   /\ _matches_hotkey spaced_trigger (Key "right_shift") = false
   /\ _matches_hotkey spaced_trigger (Key "shift_l") = false)
  /\ (_matches_hotkey underscored_trigger (Key "shift_r") = true
      /\ _matches_hotkey underscored_trigger (Key "right_shift") = true
      /\ _matches_hotkey underscored_trigger (Key "shift_l") = false)
  /\ (forall (cfg : VoiceConfig.t) (name : string),
         _matches_hotkey cfg (Key name)
         = _matches_hotkey
             (with_push_to_talk_key (Str.lower (push_to_talk_key cfg)) cfg)
             (Key (Str.lower name)))
  /\ (forall (cfg : VoiceConfig.t) (name : string),
         _matches_hotkey cfg (Key name) = true
         <-> Str.lower name = Str.lower (push_to_talk_key cfg)
             \/ normalized (Str.lower (push_to_talk_key cfg))
                = Some (Str.lower name))
  /\ (forall (cfg : VoiceConfig.t) (c : ascii) (r : string),
         _matches_hotkey cfg (KeyCode (Some (String c r)))
         = String.eqb (Str.lower (String c r))
                      (Str.lower (push_to_talk_key cfg)))
  /\ (forall cfg : VoiceConfig.t,
         _matches_hotkey cfg (KeyCode None) = false
         /\ _matches_hotkey cfg (KeyCode (Some ""%string)) = false).
Proof.
  split; [repeat split|]. split; [repeat split|].
  split; [|split; [|split]].
  - intros cfg name. unfold _matches_hotkey, matches_named. cbn.
    rewrite !lower_idempotent. reflexivity.
  - intros cfg name. unfold _matches_hotkey, matches_named. cbn.
    destruct (String.eqb_spec (Str.lower name) (Str.lower (push_to_talk_key cfg)))
      as [E|E]; [tauto|].
    destruct (normalized (Str.lower (push_to_talk_key cfg))) as [n|].
    + destruct (String.eqb_spec (Str.lower name) n) as [->|N].
      * tauto.
      * split; [discriminate|]. intros [H|H]; [contradiction|].
        injection H as ->. contradiction.
    + split; [discriminate|]. intros [H|H]; [contradiction|discriminate].
  - intros cfg c r. reflexivity.
  - intros cfg. split; reflexivity.
Qed.

(** C7 as the specification words it: the trigger "right shift" does not
    accept the event named "right_shift". *)
Lemma hotkey_spaced_trigger_counterexample :
  ~ (_matches_hotkey spaced_trigger (Key "shift_r") = true
     /\ _matches_hotkey spaced_trigger (Key "right_shift") = true
     /\ _matches_hotkey spaced_trigger (Key "shift_l") = false).
Proof. intros (_ & H & _). vm_compute in H. discriminate. Qed.

End HotkeyBinding.

(* ===================================================================== *)
(** * Properties of the transcriber                                       *)
(* ===================================================================== *)

Section Transcriber.

Import WhisperTranscriber.

(** C3, as the code has it: on a non-empty buffer [transcribe] gives back
    the recognizer's text with the surrounding whitespace removed, which is
    the empty string, not an absent value, when nothing else is left, and an
    error raised while transcribing reaches the caller. *)
Theorem transcribe_strips_or_propagates
    (model : recognizer) (b : byte) (rest : bytes) :
  (forall text : string,
      model (b :: rest) = Return text ->
      transcribe model (Some (b :: rest)) = Return (Some (Str.strip text)))
  /\ (forall e : exn,
         model (b :: rest) = Raise e ->
         transcribe model (Some (b :: rest)) = Raise e)
  /\ (forall text : string,
         model (b :: rest) = Return text ->
         Str.strip text = ""%string ->
         transcribe model (Some (b :: rest)) = Return (Some ""%string)).
Proof.
  unfold transcribe, transcribe_local, bind.
  repeat split; intros; 
    repeat match goal with H : _ = _ |- _ => rewrite H end; reflexivity.
Qed.

Lemma transcribe_strips_or_propagates_witness :
  transcribe hello_model (Some loud_chunk) = Return (Some "hello world"%string)
  /\ transcribe failing_model (Some loud_chunk) = Raise RuntimeError
  /\ transcribe blank_model (Some loud_chunk) = Return (Some ""%string).
Proof.
  split; [|split].
  - apply (proj1 (transcribe_strips_or_propagates hello_model x00
                    [x40; x00; x40]%byte) " hello world "%string).
    reflexivity.
  - apply (proj1 (proj2 (transcribe_strips_or_propagates failing_model x00
                           [x40; x00; x40]%byte)) RuntimeError).
    reflexivity.
  - apply (proj2 (proj2 (transcribe_strips_or_propagates blank_model x00
                           [x40; x00; x40]%byte)) "  "%string);
      reflexivity.
Defined.

(** C3 as the specification words it fails twice: a recognizer error is not
    caught, and blank text comes back as the empty string. *)
Lemma transcribe_counterexample :
  ~ (forall (model : recognizer) (audio : bytes),
        audio <> [] -> exists v, transcribe model (Some audio) = Return v)
  /\ ~ (forall (model : recognizer) (audio : bytes) (text : string),
          audio <> [] -> model audio = Return text ->
          Str.strip text = ""%string ->
          transcribe model (Some audio) = Return None).
Proof.
  split; intros H.
  - destruct (H failing_model loud_chunk ltac:(discriminate)) as [v Hv].
    discriminate.
  - specialize (H blank_model loud_chunk "  "%string ltac:(discriminate)
                  eq_refl eq_refl).
    discriminate.
Qed.

End Transcriber.

(* ===================================================================== *)
(** * Properties of configuration loading                                 *)
(* ===================================================================== *)

Section ConfigurationLoading.

Import Json VoiceConfig.

Lemma cls_returns_iff (d : dict) :
  (exists inst, cls d = Return inst)
  <-> forallb (fun kv => is_field (fst kv)) d = true.
Proof.
  unfold cls. destruct (forallb _ d); split; eauto; try discriminate.
  intros [inst H]. discriminate.
Qed.

Lemma pop_cons (k k' : string) (v : value) (d : dict) :
  pop k ((k', v) :: d)
  = if String.eqb k k' then pop k d else (k', v) :: pop k d.
Proof. unfold pop. cbn [filter fst]. destruct (String.eqb k k'); reflexivity. Qed.

Lemma forallb_pop_deprecated (d : dict) :
  forallb (fun kv => is_field (fst kv))
          (pop "api_key" (pop "whisper_mode" d)) = true
  <-> Forall (fun kv => accepted_key (fst kv)) d.
Proof.
  unfold accepted_key.
  induction d as [|[k v] d IH]; [split; [constructor|reflexivity]|].
  rewrite pop_cons.
  destruct (String.eqb_spec "whisper_mode" k) as [<-|Hw].
  - rewrite IH. split; [intros H; constructor; auto|].
    intros H. inversion H; assumption.
  - rewrite pop_cons.
    destruct (String.eqb_spec "api_key" k) as [<-|Ha].
    + rewrite IH. split; [intros H; constructor; auto|].
      intros H. inversion H; assumption.
    + cbn [forallb fst]. rewrite andb_true_iff, IH. split.
      * intros [H1 H2]. constructor; auto.
      * intros H. inversion H as [|? ? [E|[E|E]] HF]; subst;
          cbn [fst] in *; try congruence. auto.
Qed.

Lemma Return_inj (A : Type) (a b : A) : Return a = Return b -> a = b.
Proof. intros H. injection H as H. exact H. Qed.

Lemma get_filled_fields (d : dict) (k : string) :
  forall l : dict,
    get k (map (fun fd => (fst fd, match get (fst fd) d with
                                   | Some v => v
                                   | None => snd fd
                                   end)) l)
    = match get k l with
      | Some dflt => Some (match get k d with Some v => v | None => dflt end)
      | None => None
      end.
Proof.
  induction l as [|[k' v'] l IH]; [reflexivity|].
  cbn [map get fst snd].
  destruct (String.eqb_spec k k') as [->|N]; [reflexivity|exact IH].
Qed.

(** C8, as the code has it: loading drops exactly the two deprecated fields
    [whisper_mode] and [api_key], fills the fields the file leaves out with
    their defaults, and gives the defaults when there is no file; it
    succeeds exactly when every other key of the saved object is a field of
    the configuration, raises [TypeError] on any other key, and lets the
    error of a malformed file through. *)
Theorem from_file_drops_deprecated_fields_only :
  from_file None = Return fields
  /\ (forall (d : dict) (v : value),
         from_file (Some (Return (Obj (("whisper_mode"%string, v) :: d))))
         = from_file (Some (Return (Obj d)))
         /\ from_file (Some (Return (Obj (("api_key"%string, v) :: d))))
            = from_file (Some (Return (Obj d))))
  /\ (forall d : dict,
         (exists inst, from_file (Some (Return (Obj d))) = Return inst)
         <-> Forall (fun kv => accepted_key (fst kv)) d)
  /\ (forall d : dict,
         ~ Forall (fun kv => accepted_key (fst kv)) d ->
         from_file (Some (Return (Obj d))) = Raise TypeError)
  /\ (forall (d inst : dict) (k : string) (dflt : value),
         from_file (Some (Return (Obj d))) = Return inst ->
         get k fields = Some dflt ->
         get k inst
         = Some match get k (pop "api_key" (pop "whisper_mode" d)) with
                | Some v => v
                | None => dflt
                end)
  /\ (forall e : exn, from_file (Some (Raise e)) = Raise e).
Proof.
  split; [reflexivity|]. split; [intros d v; split; reflexivity|].
  split; [|split; [|split]].
  - intros d. cbn. rewrite cls_returns_iff. apply forallb_pop_deprecated.
  - intros d H. cbn. unfold cls.
    destruct (forallb _ (pop "api_key" (pop "whisper_mode" d))) eqn:E;
      [|reflexivity].
    apply forallb_pop_deprecated in E. contradiction.
  - intros d inst k dflt. cbn [from_file bind]. unfold cls.
    destruct (forallb _ (pop "api_key" (pop "whisper_mode" d)));
      [|discriminate].
    intros H Hk. apply Return_inj in H. rewrite <- H, get_filled_fields, Hk.
    reflexivity.
  - intros e. reflexivity.
Qed.

Lemma from_file_drops_deprecated_fields_only_witness :
  (exists inst, from_file (Some (Return old_version_file)) = Return inst)
  /\ from_file (Some (Return unknown_field_file)) = Raise TypeError.
Proof.
  split.
  - apply (proj2 (proj1 (proj2 (proj2 from_file_drops_deprecated_fields_only))
                    [("whisper_mode"%string, Str "api");
                     ("api_key"%string, Str "sk");
                     ("language"%string, Str "fr")])).
    constructor; [left; reflexivity|].
    constructor; [right; left; reflexivity|].
    constructor; [right; right; reflexivity|]. constructor.
  - apply (proj1 (proj2 (proj2 (proj2 from_file_drops_deprecated_fields_only)))
             [("language"%string, Str "fr"); ("noise_gate"%string, Int 3)]).
    intros H. inversion H as [|? ? _ H']. inversion H' as [|? ? [E|[E|E]] _];
      cbn in E; discriminate.
Defined.

(** C8 as the specification words it fails twice: an unknown field makes the
    load fail, and a malformed file does not give the defaults. *)
Lemma from_file_counterexample :
  ~ (forall d : dict, exists inst, from_file (Some (Return (Obj d))) = Return inst)
  /\ ~ (forall e : exn, from_file (Some (Raise e)) = from_file None).
Proof.
  split; intros H.
  - destruct (H [("language"%string, Str "fr"); ("noise_gate"%string, Int 3)])
      as [inst Hi].
    vm_compute in Hi. discriminate.
  - specialize (H JSONDecodeError). vm_compute in H. discriminate.
Qed.

End ConfigurationLoading.

(* ===================================================================== *)
(** * Properties of the session                                           *)
(* ===================================================================== *)

Section Session.

Import VoiceConfig VoiceInput.

Lemma transcribe_and_deliver_calls (s : VoiceInput.t) (c : cycle)
    (audio_data : option bytes) (d : delivery) :
  transcribe_and_deliver s c audio_data = Return d ->
  (List.length (calls d) <= 1)%nat
  /\ forall text, In text (calls d) -> text <> ""%string.
Proof.
  unfold transcribe_and_deliver.
  destruct (WhisperTranscriber.truthy_bytes audio_data).
  - destruct (WhisperTranscriber.transcribe (model c) audio_data)
      as [[[|a r]|]|e]; cbn [bind]; try discriminate.
    + intros H. injection H as <-. cbn. split; [lia|tauto].
    + destruct (auto_submit (config s) || integration_mode s);
        [|destruct (confirm c)]; intros H; injection H as <-; cbn;
        (split; [lia|]); intros text Ht; try tauto;
        destruct Ht as [<-|[]]; discriminate.
    + intros H. injection H as <-. cbn. split; [lia|tauto].
  - intros H. injection H as <-. cbn. split; [lia|tauto].
Qed.

(** A cycle calls [on_text] at most once, and never with the empty string. *)
Lemma record_and_transcribe_calls (s : VoiceInput.t) (c : cycle) (d : delivery) :
  _record_and_transcribe s c = Some (Return d) ->
  (List.length (calls d) <= 1)%nat
  /\ forall text, In text (calls d) -> text <> ""%string.
Proof.
  unfold _record_and_transcribe.
  destruct (AudioRecorder.record_audio _ _ _) as [rec|]; [|discriminate].
  destruct (AudioRecorder.returned rec) as [audio_data|e]; cbn [bind];
    intros H; injection H as H; [|discriminate].
  exact (transcribe_and_deliver_calls _ _ _ H).
Qed.

Lemma live_set_nth_finished (i : nat) :
  forall ws,
    nth_error ws i = Some InFlight ->
    S (List.length (filter is_live (set_nth i Finished ws)))
    = List.length (filter is_live ws).
Proof.
  induction i as [|i IH]; intros [|w ws]; cbn; try discriminate.
  - intros H. injection H as ->. reflexivity.
  - intros H. destruct (is_live w); cbn; rewrite (IH ws H); reflexivity.
Qed.

(** The cycle does not deliver text that is empty after trimming, and an
    error of the recognizer leaves [transcribe_and_deliver] as it came. *)
Lemma blank_or_failed_transcription_is_not_delivered
    (s : VoiceInput.t) (c : cycle) (b : byte) (rest : bytes) :
  (forall text : string,
      model c (b :: rest) = Return text -> Str.strip text = ""%string ->
      transcribe_and_deliver s c (Some (b :: rest))
      = Return {| calls := []; statuses := [Transcribing; FailedToTranscribe] |})
  /\ (forall e : exn,
         model c (b :: rest) = Raise e ->
         transcribe_and_deliver s c (Some (b :: rest)) = Raise e).
Proof.
  unfold transcribe_and_deliver, WhisperTranscriber.transcribe,
    WhisperTranscriber.transcribe_local.
  cbn [WhisperTranscriber.truthy_bytes].
  split; [intros text Hm Hs|intros e Hm]; rewrite Hm; cbn [bind];
    [rewrite Hs|]; reflexivity.
Qed.

(** C1, as the code has it: a release of the trigger key clears the
    [recording] flag at once, together with the continue-signal when a
    worker has created it, and touches nothing else; a release of another
    key changes nothing; and neither the start nor the completion of a
    cycle writes the flag. *)
Theorem key_release_resets_recording_at_once (s : VoiceInput.t) (k : key) :
  (_matches_hotkey (config s) k = true ->
     recording (_on_key_release s k) = false
     /\ should_continue (_on_key_release s k)
        = match should_continue s with
          | Some _ => Some false
          | None => None
          end
     /\ threads (_on_key_release s k) = threads s
     /\ on_text_calls (_on_key_release s k) = on_text_calls s
     /\ active (_on_key_release s k) = active s)
  /\ (_matches_hotkey (config s) k = false -> _on_key_release s k = s)
  /\ (forall (i : nat) (s' : VoiceInput.t),
         step s (WorkerSetup i) = Some s' -> recording s' = recording s)
  /\ (forall (i : nat) (c : cycle) (s' : VoiceInput.t),
         step s (WorkerDone i c) = Some s' -> recording s' = recording s).
Proof.
  split; [|split; [|split]].
  - intros H. unfold _on_key_release. rewrite H.
    destruct (should_continue s) eqn:E; cbn; rewrite ?E; auto.
  - intros H. unfold _on_key_release. rewrite H. reflexivity.
  - intros i s'. cbn. destruct (nth_error (threads s) i) as [[| |]|];
      try discriminate. intros H. injection H as <-. reflexivity.
  - intros i c s'. cbn. destruct (nth_error (threads s) i) as [[| |]|];
      try discriminate.
    destruct (_record_and_transcribe s c) as [[d|e]|]; try discriminate;
      intros H; injection H as <-; reflexivity.
Qed.

Lemma key_release_resets_recording_at_once_witness :
  _matches_hotkey (config key_held_session) shift_r = true
  /\ recording (_on_key_release key_held_session shift_r) = false
  /\ live_cycles (_on_key_release key_held_session shift_r) = 1%nat.
Proof.
  split; [reflexivity|]. split; [|reflexivity].
  apply (proj1 (key_release_resets_recording_at_once key_held_session shift_r)).
  reflexivity.
Defined.

(** The state of the counterexamples is one the session reaches: the key
    goes down and the worker begins. *)
Lemma key_held_session_reachable :
  run (started VoiceConfig.default true) [KeyPress shift_r; WorkerSetup 0]
  = Some key_held_session.
Proof. reflexivity. Qed.

(** C1 as the specification words it: with one cycle in flight, releasing
    the trigger key would leave the session in the recording state. *)
Lemma key_release_counterexample :
  ~ (forall (s : VoiceInput.t) (k : key),
        recording s = true -> live_cycles s = 1%nat ->
        _matches_hotkey (config s) k = true ->
        recording (_on_key_release s k) = true).
Proof.
  intros H.
  specialize (H key_held_session shift_r eq_refl eq_refl eq_refl).
  discriminate.
Qed.

(** C2, as the code has it: a key press that arrives while the [recording]
    flag is set changes nothing (no worker is started, nothing is queued);
    a press starts a worker only on an active session whose flag is clear,
    and sets the flag; and every cycle calls [on_text] at most once, with
    non-empty text, and is over afterwards. *)
Theorem key_press_while_recording_is_dropped (s : VoiceInput.t) (k : key) :
  (recording s = true -> _on_key_press s k = s)
  /\ (_on_key_press s k = s
      \/ (active s = true /\ recording s = false
          /\ _matches_hotkey (config s) k = true
          /\ recording (_on_key_press s k) = true
          /\ threads (_on_key_press s k) = threads s ++ [Spawned]
          /\ on_text_calls (_on_key_press s k) = on_text_calls s))
  /\ (forall (c : cycle) (d : delivery),
         _record_and_transcribe s c = Some (Return d) ->
         (List.length (calls d) <= 1)%nat
         /\ forall text, In text (calls d) -> text <> ""%string)
  /\ (forall (i : nat) (c : cycle) (s' : VoiceInput.t),
         step s (WorkerDone i c) = Some s' ->
         S (live_cycles s') = live_cycles s
         /\ exists texts,
              on_text_calls s' = on_text_calls s ++ texts
              /\ (List.length texts <= 1)%nat).
Proof.
  split; [|split; [|split]].
  - intros H. unfold _on_key_press. rewrite H, orb_true_r. reflexivity.
  - unfold _on_key_press.
    destruct (active s), (recording s); cbn; auto.
    destruct (_matches_hotkey (config s) k); cbn; auto.
    right. repeat split.
  - intros c d. apply record_and_transcribe_calls.
  - intros i c s'. cbn.
    destruct (nth_error (threads s) i) as [[| |]|] eqn:En; try discriminate.
    destruct (_record_and_transcribe s c) as [[d|e]|] eqn:Er;
      try discriminate; intros H; injection H as <-; unfold live_cycles; cbn.
    + split; [apply live_set_nth_finished, En|].
      exists (calls d). split; [reflexivity|].
      apply (record_and_transcribe_calls _ _ Er).
    + split; [apply live_set_nth_finished, En|].
      exists []. rewrite app_nil_r. split; [reflexivity|]. cbn. lia.
Qed.

Lemma key_press_while_recording_is_dropped_witness :
  recording key_held_session = true
  /\ _on_key_press key_held_session shift_r = key_held_session.
Proof.
  split; [reflexivity|].
  apply (proj1 (key_press_while_recording_is_dropped key_held_session shift_r)).
  reflexivity.
Defined.

(** C2 as the specification words it: press, release, press starts a second
    cycle while the first is in flight, so a further press that arrives in
    the recording state finds two cycles active. *)
Lemma one_cycle_at_a_time_counterexample :
  ~ (forall (es : list event) (s : VoiceInput.t) (k : key),
        run (started VoiceConfig.default true) es = Some s ->
        recording s = true ->
        (live_cycles (_on_key_press s k) <= 1)%nat).
Proof.
  intros H.
  specialize (H [KeyPress shift_r; WorkerSetup 0; KeyRelease shift_r;
                 KeyPress shift_r]
                _ shift_r eq_refl eq_refl).
  vm_compute in H. lia.
Qed.

End Session.

(* ===================================================================== *)
(** * Saving, reloading and the configuration dialogue                    *)
(* ===================================================================== *)

Section SaveAndConfigure.

Import Json VoiceConfig VoiceInput ConfigureVoice.

Lemma cls_keys (kwargs inst : dict) :
  cls kwargs = Return inst -> map fst inst = map fst fields.
Proof.
  unfold cls. destruct (forallb _ kwargs); [|discriminate].
  intros H. apply Return_inj in H. rewrite <- H, map_map. reflexivity.
Qed.

(** Whatever the file holds, a configuration that loads has the declared
    fields, in declaration order. *)
Lemma from_file_keys (file : option (result value)) (inst : dict) :
  from_file file = Return inst -> map fst inst = map fst fields.
Proof.
  destruct file as [[[]|e]|]; cbn [from_file bind]; try discriminate;
    apply cls_keys.
Qed.

(** An instance with the declared fields loads as itself. *)
Lemma from_file_of_instance (inst : dict) :
  map fst inst = map fst fields ->
  from_file (Some (Return (save inst))) = Return inst.
Proof.
  intros H. cbn [fields map fst] in H.
  repeat (destruct inst as [|[? ?] inst]; [discriminate|];
          cbn [map fst] in H; injection H as ? H; subst).
  destruct inst; [reflexivity|discriminate].
Qed.

(** X1: saving a loaded configuration and loading the file again gives the same
    configuration. *)
Theorem save_then_from_file_round_trip
    (file : option (result value)) (inst : dict) :
  from_file file = Return inst ->
  from_file (Some (Return (save inst))) = Return inst.
Proof. intros H. apply from_file_of_instance, (from_file_keys _ H). Qed.

Lemma save_then_from_file_round_trip_witness :
  exists inst,
    from_file (Some (Return old_version_file)) = Return inst
    /\ from_file (Some (Return (save inst))) = Return inst
    /\ get "language" inst = Some (Str "fr").
Proof.
  eexists. split; [reflexivity|]. split; [|reflexivity].
  apply (@save_then_from_file_round_trip (Some (Return old_version_file))).
  reflexivity.
Defined.









(** X4: the key the dialogue stores is a trigger the session recognizes: the
    event it was captured from matches the configuration it is written to. *)
Theorem captured_key_matches_itself
    (cfg : VoiceConfig.t) (k : key) (captured : string) :
  on_key_press k = Some captured ->
  _matches_hotkey (with_push_to_talk_key captured cfg) k = true.
Proof.
  unfold on_key_press, _matches_hotkey, matches_named.
  cbn [push_to_talk_key with_push_to_talk_key].
  destruct (key_char k) as [[[|c r]|]|]; intros H;
    try (injection H as <-; apply String.eqb_refl);
    rewrite H, String.eqb_refl; reflexivity.
Qed.

Lemma captured_key_matches_itself_witness :
  on_key_press shift_r = Some "shift_r"%string
  /\ _matches_hotkey (with_push_to_talk_key "shift_r" VoiceConfig.default)
       shift_r = true.
Proof.
  split; [reflexivity|].
  apply (@captured_key_matches_itself VoiceConfig.default shift_r).
  reflexivity.
Defined.

End SaveAndConfigure.

(* ===================================================================== *)
(** * More on the session: stopping, delivery and reachable states        *)
(* ===================================================================== *)

Section SessionTraces.

Import VoiceConfig VoiceInput.

(** X5: [stop] makes the session deaf to key presses and leaves the workers
    alone: a cycle in flight starts, completes and delivers as it would
    have without the call. *)
Theorem stop_ignores_presses_and_spares_workers (s : VoiceInput.t) :
  (forall k : key, _on_key_press (stop s) k = stop s)
  /\ live_cycles (stop s) = live_cycles s
  /\ (forall i : nat,
         step (stop s) (WorkerSetup i) = option_map stop (step s (WorkerSetup i)))
  /\ (forall (i : nat) (c : cycle),
         step (stop s) (WorkerDone i c)
         = option_map stop (step s (WorkerDone i c))).
Proof.
  split; [reflexivity|]. split; [reflexivity|]. split.
  - intros i. cbn.
    destruct (nth_error (threads s) i) as [[| |]|]; reflexivity.
  - intros i c. cbn.
    destruct (nth_error (threads s) i) as [[| |]|]; try reflexivity.
    change (_record_and_transcribe (stop s) c)
      with (_record_and_transcribe s c).
    destruct (_record_and_transcribe s c) as [[d|e]|]; reflexivity.
Qed.

(** X6: the delivery gate: recognized text goes to [on_text] without a question
    when [auto_submit] or the integration mode is set, and otherwise exactly
    when the user confirms. *)
Theorem delivery_follows_the_policy
    (s : VoiceInput.t) (c : cycle) (audio_data : option bytes) (text : string) :
  WhisperTranscriber.truthy_bytes audio_data = true ->
  WhisperTranscriber.transcribe (model c) audio_data = Return (Some text) ->
  text <> ""%string ->
  exists d,
    transcribe_and_deliver s c audio_data = Return d
    /\ calls d = if auto_submit (config s) || integration_mode s || confirm c
                 then [text] else [].
Proof.
  intros Ha Ht Hn. unfold transcribe_and_deliver. rewrite Ha, Ht. cbn [bind].
  destruct text as [|a r]; [contradiction|].
  destruct (auto_submit (config s) || integration_mode s);
    [|destruct (confirm c)]; eexists; split; reflexivity.
Qed.

Lemma delivery_follows_the_policy_witness :
  exists d,
    transcribe_and_deliver confirming_session declined_cycle (Some loud_chunk)
    = Return d
    /\ calls d = [].
Proof.
  apply (@delivery_follows_the_policy confirming_session declined_cycle
           (Some loud_chunk) "hello world"%string);
    [reflexivity|reflexivity|discriminate].
Defined.

(** X7: A release of the trigger that comes before the worker has run its first
    line is lost on the recorder: the flag is cleared, but the worker then
    sets the continue-signal and records with the key up. *)
Theorem release_before_worker_setup_is_lost
    (s : VoiceInput.t) (k : key) (i : nat) :
  _matches_hotkey (config s) k = true ->
  nth_error (threads s) i = Some Spawned ->
  exists s',
    run s [KeyRelease k; WorkerSetup i] = Some s'
    /\ recording s' = false
    /\ should_continue s' = Some true
    /\ nth_error (threads s') i = Some InFlight.
Proof.
  intros Hk Hi. cbn [run step]. unfold _on_key_release. rewrite Hk.
  assert (forall ws : list worker,
             nth_error ws i = Some Spawned ->
             nth_error (set_nth i InFlight ws) i = Some InFlight) as Hset.
  { clear. induction i as [|i IH]; intros [|w ws]; cbn; try discriminate; auto. }
  destruct (should_continue s) eqn:E; cbn; rewrite ?E; cbn; rewrite Hi;
    eexists; (split; [reflexivity|]); cbn; auto.
Qed.

Lemma release_before_worker_setup_is_lost_witness :
  exists s',
    run confirming_session [KeyRelease shift_r; WorkerSetup 0] = Some s'
    /\ recording s' = false
    /\ should_continue s' = Some true
    /\ nth_error (threads s') 0 = Some InFlight.
Proof.
  apply (@release_before_worker_setup_is_lost confirming_session shift_r 0%nat);
    reflexivity.
Defined.

Lemma set_nth_length (i : nat) (w : worker) :
  forall ws, List.length (set_nth i w ws) = List.length ws.
Proof.
  induction i as [|i IH]; intros [|w' ws]; cbn; auto.
Qed.

Lemma finished_set_nth (i : nat) (w : worker) :
  forall ws,
    (List.length (filter is_finished ws)
     <= List.length (filter is_finished (set_nth i w ws))
        + (match nth_error ws i with
           | Some Finished => 1
           | _ => 0
           end))%nat.
Proof.
  induction i as [|i IH]; intros [|w' ws]; cbn; try lia.
  - destruct w', w; cbn; lia.
  - specialize (IH ws). destruct (is_finished w'); cbn; lia.
Qed.

Lemma finished_set_nth_finished (i : nat) :
  forall ws,
    nth_error ws i = Some InFlight ->
    List.length (filter is_finished (set_nth i Finished ws))
    = S (List.length (filter is_finished ws)).
Proof.
  induction i as [|i IH]; intros [|w ws]; cbn; try discriminate.
  - intros H. injection H as ->. reflexivity.
  - intros H. destruct (is_finished w); cbn; rewrite (IH ws H); reflexivity.
Qed.

Lemma step_keeps_calls_accounted (s s' : VoiceInput.t) (e : event) :
  calls_accounted s -> step s e = Some s' -> calls_accounted s'.
Proof.
  unfold calls_accounted, finished_cycles. intros [Hn Hf].
  destruct e as [k|k|i|i c|]; cbn [step].
  - intros H. injection H as <-. unfold _on_key_press.
    destruct (negb (active s) || recording s); [auto|].
    destruct (_matches_hotkey (config s) k); [|auto].
    cbn. rewrite filter_app, length_app. cbn. split; [lia|auto].
  - intros H. injection H as <-. unfold _on_key_release.
    destruct (_matches_hotkey (config s) k); [|auto].
    destruct (should_continue s) eqn:E; cbn; rewrite ?E; cbn; auto.
  - destruct (nth_error (threads s) i) as [[| |]|] eqn:En; try discriminate.
    intros H. injection H as <-. cbn.
    pose proof (finished_set_nth i InFlight (threads s)) as Hs.
    rewrite En in Hs. split; [lia|auto].
  - destruct (nth_error (threads s) i) as [[| |]|] eqn:En; try discriminate.
    destruct (_record_and_transcribe s c) as [[d|err]|] eqn:Er;
      try discriminate; intros H; injection H as <-; cbn;
      rewrite (finished_set_nth_finished _ _ En).
    + destruct (record_and_transcribe_calls _ _ Er) as [Hl Hne].
      rewrite length_app. split; [lia|].
      apply Forall_app. split; [auto|]. apply Forall_forall. exact Hne.
    + split; [lia|auto].
  - intros H. injection H as <-. cbn. auto.
Qed.

(** X8: in every state the session reaches, [on_text] has been called at most
    once per completed cycle, and never with the empty string. *)
Theorem on_text_calls_bounded_by_completed_cycles
    (cfg : VoiceConfig.t) (integration : bool) (es : list event)
    (s : VoiceInput.t) :
  run (started cfg integration) es = Some s ->
  (List.length (on_text_calls s) <= finished_cycles s)%nat
  /\ Forall (fun text => text <> ""%string) (on_text_calls s).
Proof.
  assert (forall es s0, calls_accounted s0 -> run s0 es = Some s ->
                        calls_accounted s) as Hrun.
  { clear. induction es as [|e es IH]; intros s0 H0; cbn [run].
    - intros H. injection H as <-. exact H0.
    - destruct (step s0 e) as [s1|] eqn:E; [|discriminate].
      apply IH. exact (step_keeps_calls_accounted _ H0 E). }
  apply Hrun. split; [cbn; lia|constructor].
Qed.

Lemma on_text_calls_bounded_by_completed_cycles_witness :
  exists s,
    run (started VoiceConfig.default true)
        [KeyPress shift_r; WorkerSetup 0; KeyRelease shift_r;
         WorkerDone 0 declined_cycle] = Some s
    /\ on_text_calls s = ["hello world"%string]
    /\ (List.length (on_text_calls s) <= finished_cycles s)%nat.
Proof.
  eexists. split; [vm_compute; reflexivity|]. split; [reflexivity|].
  refine (proj1 (@on_text_calls_bounded_by_completed_cycles
                   VoiceConfig.default true
                   [KeyPress shift_r; WorkerSetup 0; KeyRelease shift_r;
                    WorkerDone 0 declined_cycle] _ _)).
  vm_compute. reflexivity.
Defined.

Lemma step_gate_credit (s s' : VoiceInput.t) (e : event) :
  step s e = Some s' ->
  config s' = config s
  /\ (gate_credit s' <= gate_credit s + trigger_releases (config s) [e])%nat.
Proof.
  unfold gate_credit. destruct e as [k|k|i|i c|]; cbn [step trigger_releases].
  - intros H. injection H as <-. unfold _on_key_press.
    destruct (active s), (recording s) eqn:Er; cbn; rewrite ?Er;
      try (split; [reflexivity|lia]).
    destruct (_matches_hotkey (config s) k); cbn; rewrite ?Er;
      [|split; [reflexivity|lia]].
    rewrite length_app. cbn. split; [reflexivity|lia].
  - intros H. injection H as <-. unfold _on_key_release.
    destruct (_matches_hotkey (config s) k).
    + destruct (should_continue s) eqn:E, (recording s) eqn:Er; cbn;
        rewrite ?E; cbn; rewrite ?Er; (split; [reflexivity|lia]).
    + split; [reflexivity|lia].
  - destruct (nth_error (threads s) i) as [[| |]|]; try discriminate.
    intros H. injection H as <-. cbn. rewrite set_nth_length.
    split; [reflexivity|lia].
  - destruct (nth_error (threads s) i) as [[| |]|]; try discriminate.
    destruct (_record_and_transcribe s c) as [[d|err]|]; try discriminate;
      intros H; injection H as <-; cbn; rewrite set_nth_length;
      (split; [reflexivity|lia]).
  - intros H. injection H as <-. cbn. split; [reflexivity|lia].
Qed.

Lemma run_gate_credit (es : list event) :
  forall s s',
    run s es = Some s' ->
    config s' = config s
    /\ (gate_credit s' <= gate_credit s + trigger_releases (config s) es)%nat.
Proof.
  induction es as [|e es IH]; intros s s'; cbn [run].
  - intros H. injection H as <-. cbn. split; [reflexivity|lia].
  - destruct (step s e) as [s1|] eqn:E; [|discriminate]. intros H.
    destruct (step_gate_credit _ _ E) as [Hc1 H1].
    destruct (IH _ _ H) as [Hc2 H2]. rewrite Hc1 in *.
    split; [congruence|].
    assert (trigger_releases (config s) (e :: es)
            = (trigger_releases (config s) [e]
               + trigger_releases (config s) es)%nat) as ->.
    { destruct e; cbn [trigger_releases]; try reflexivity.
      destruct (_matches_hotkey (config s) k); reflexivity. }
    lia.
Qed.

(** X9: what the gate does bound: the session starts at most one cycle more
    than the trigger key was released, however the presses, releases and
    workers interleave. *)
Theorem cycles_started_bounded_by_trigger_releases
    (cfg : VoiceConfig.t) (integration : bool) (es : list event)
    (s : VoiceInput.t) :
  run (started cfg integration) es = Some s ->
  (List.length (threads s) <= S (trigger_releases cfg es))%nat.
Proof.
  intros H. destruct (run_gate_credit _ _ H) as [_ Hg].
  unfold gate_credit in Hg. cbn in Hg.
  destruct (recording s); lia.
Qed.

Lemma cycles_started_bounded_by_trigger_releases_witness :
  exists s,
    run (started VoiceConfig.default true)
        [KeyPress shift_r; KeyPress shift_r; KeyRelease shift_r;
         KeyPress shift_r] = Some s
    /\ List.length (threads s) = 2%nat
    /\ (List.length (threads s) <= 2)%nat.
Proof.
  eexists. split; [vm_compute; reflexivity|]. split; [reflexivity|].
  refine (@cycles_started_bounded_by_trigger_releases
            VoiceConfig.default true
            [KeyPress shift_r; KeyPress shift_r; KeyRelease shift_r;
             KeyPress shift_r] _ _).
  vm_compute. reflexivity.
Defined.

End SessionTraces.

(* ===================================================================== *)
(** * More on the recording loop: exits, errors and the terminal          *)
(* ===================================================================== *)

Section RecordingExits.

Import VoiceConfig AudioRecorder.

Variable cfg : VoiceConfig.t.
Variable start : Q.

(** A level line is one line, written from the fifth chunk on when the
    display is enabled. *)
Lemma show_level_shape (frames : list bytes) (level : float64) :
  finite_nonneg level ->
  exists out,
    show_level cfg frames level = Return out
    /\ forallb is_level_line out = true
    /\ List.length out
       = if (min_data_threshold <=? List.length frames)%nat
            && show_audio_levels cfg
         then 1%nat else 0%nat.
Proof.
  intros H. unfold show_level.
  destruct ((min_data_threshold <=? List.length frames)%nat
            && show_audio_levels cfg); [|eexists; repeat split].
  destruct (draw_audio_level_returns H) as [bar ->]. cbn [bind].
  destruct H as (Hn & Hi & _).
  destruct (to_int_finite level Hn Hi) as [n ->].
  eexists. repeat split.
Qed.

(** One iteration, with the two calls that cannot raise resolved. *)
Ltac destruct_tick tk :=
  destruct (Qgtb (t_loop tk - start) (max_recording_time cfg)) eqn:?;
  [ | let data := fresh "data" in
      let level := fresh "level" in
      let Hfin := fresh "Hfin" in
      let Hlevel := fresh "Hlevel" in
      destruct (stream_read tk) as [data|?] eqn:?;
      [ destruct (get_audio_level_returns data) as (level & Hlevel & Hfin);
        rewrite Hlevel
      | ] ].







Lemma record_loop_stops_on_signal :
  forall world frames ss console reads ex n tk,
    record_loop cfg start world frames ss console reads = Some ex ->
    nth_error world n = Some tk ->
    getattr_should_continue (should_continue_recording tk) = false ->
    (exit_reads ex <= reads + S n)%nat.
Proof.
  induction world as [|tk0 world IH];
    intros frames ss console reads ex n tk H; [discriminate|].
  cbn [record_loop] in H. revert H. destruct_tick tk0.
  - intros H. injection H as <-. cbn. lia.
  - destruct (show_level_shape (frames ++ [data]) Hfin) as (shown & -> & _).
    destruct (silence_step cfg ss level (t_level tk0)) as [ss' [|]];
      [intros H; injection H as <-; cbn; lia|].
    destruct (negb (getattr_should_continue (should_continue_recording tk0)))
      eqn:Hs; [intros H; injection H as <-; cbn; lia|].
    intros H Hn Hk. destruct n as [|n]; cbn in Hn.
    + injection Hn as ->. rewrite Hk in Hs. discriminate.
    + pose proof (IH _ _ _ _ _ _ _ H Hn Hk). lia.
  - intros H. injection H as <-. cbn. lia.
Qed.

(** X13: releasing the key is cooperative: the loop looks at the continue-signal
    once per iteration, after the chunk is read, so a signal found cleared
    in iteration [n] ends the recording with at most [n + 1] chunks. *)
Theorem record_audio_stops_at_cleared_signal
    (world : list tick) (r : outcome) (n : nat) (tk : tick) :
  record_audio cfg start world = Some r ->
  nth_error world n = Some tk ->
  getattr_should_continue (should_continue_recording tk) = false ->
  (chunks_read r <= S n)%nat.
Proof.
  unfold record_audio.
  destruct (record_loop cfg start world [] None [RecordingBanner] 0)
    as [ex|] eqn:E; [|discriminate].
  intros H. injection H as <-. cbn. intros Hn Hk.
  exact (@record_loop_stops_on_signal _ _ _ _ _ _ _ _ E Hn Hk).
Qed.

Lemma record_loop_silence_sound :
  forall world consumed frames ss console reads ex,
    tracked cfg ss consumed ->
    record_loop cfg start world frames ss console reads = Some ex ->
    exit_reason ex = StopSilence ->
    exists k pre first mid last,
      exit_reads ex = (reads + k)%nat
      /\ consumed ++ firstn k world = pre ++ first :: mid ++ [last]
      /\ Forall (silent_tick cfg) (first :: mid ++ [last])
      /\ (silence_duration cfg < t_level last - t_level first)%Q.
Proof.
  induction world as [|tk world IH];
    intros consumed frames ss console reads ex Htr H; [discriminate|].
  cbn [record_loop] in H. revert H. destruct_tick tk.
  - intros H. injection H as <-. discriminate.
  - destruct (show_level_shape (frames ++ [data]) Hfin) as (shown & -> & _).
    unfold silence_step.
    destruct (ltb level (silence_threshold cfg)) eqn:Hlow.
    + assert (silent_tick cfg tk) as Hsil by (exists data, level; auto).
      destruct ss as [s|].
      * destruct Htr as (pre & first & mid & Hc & Hall & Hs).
        destruct (Qgtb (t_level tk - s) (silence_duration cfg)) eqn:Hexp.
        { intros H. injection H as <-. cbn. intros _.
          exists 1%nat, pre, first, mid, tk. cbn [firstn].
          rewrite Hc, <- app_assoc. cbn. repeat split; try lia.
          - inversion Hall; subst. constructor; auto.
            apply Forall_app. split; auto.
          - apply Qgtb_true in Hexp. rewrite Hs. exact Hexp. }
        destruct (negb (getattr_should_continue (should_continue_recording tk)));
          [intros H; injection H as <-; discriminate|].
        intros H He.
        assert (tracked cfg (Some s) (consumed ++ [tk])) as Htr'.
        { exists pre, first, (mid ++ [tk]). rewrite Hc, <- app_assoc. cbn.
          repeat split; auto. inversion Hall; subst. constructor; auto.
          apply Forall_app. split; auto. }
        destruct (IH _ _ _ _ _ _ Htr' H He)
          as (k & pre' & first' & mid' & last & Hk & Hl & Ha & Hd).
        exists (S k), pre', first', mid', last. cbn [firstn].
        rewrite <- Hl, <- app_assoc. cbn. repeat split; auto. lia.
      * destruct (negb (getattr_should_continue (should_continue_recording tk)));
          [intros H; injection H as <-; discriminate|].
        intros H He.
        assert (tracked cfg (Some (t_level tk)) (consumed ++ [tk])) as Htr'.
        { exists consumed, tk, []. repeat split; auto. }
        destruct (IH _ _ _ _ _ _ Htr' H He)
          as (k & pre' & first' & mid' & last & Hk & Hl & Ha & Hd).
        exists (S k), pre', first', mid', last. cbn [firstn].
        rewrite <- Hl, <- app_assoc. cbn. repeat split; auto. lia.
    + destruct (negb (getattr_should_continue (should_continue_recording tk)));
        [intros H; injection H as <-; discriminate|].
      intros H He.
      destruct (IH (consumed ++ [tk]) _ None _ _ _ I H He)
        as (k & pre' & first' & mid' & last & Hk & Hl & Ha & Hd).
      exists (S k), pre', first', mid', last. cbn [firstn].
      rewrite <- Hl, <- app_assoc. cbn. repeat split; auto. lia.
  - intros H. injection H as <-. discriminate.
Qed.

(** X14: the silence stop is sound: when [record_audio] stops for silence, the
    chunks it read end with a run of at least two chunks that are all below
    the threshold, and the clock readings taken after the first and the
    last chunk of that run are more than [silence_duration] apart. *)
Theorem record_audio_silence_stop_is_sound (world : list tick) (r : outcome) :
  record_audio cfg start world = Some r ->
  stopped_by r = StopSilence ->
  exists pre first mid last,
    firstn (chunks_read r) world = pre ++ first :: mid ++ [last]
    /\ Forall (silent_tick cfg) (first :: mid ++ [last])
    /\ (silence_duration cfg < t_level last - t_level first)%Q.
Proof.
  unfold record_audio.
  destruct (record_loop cfg start world [] None [RecordingBanner] 0)
    as [ex|] eqn:E; [|discriminate].
  intros H. injection H as <-. cbn. intros He.
  destruct (@record_loop_silence_sound _ [] _ None _ _ _ I E He)
    as (k & pre & first & mid & last & Hk & Hl & Ha & Hd).
  cbn in Hk, Hl. rewrite Hk. exists pre, first, mid, last. auto.
Qed.

End RecordingExits.

Section RecordingExitsWitnesses.

Import VoiceConfig AudioRecorder.




Lemma record_audio_stops_at_cleared_signal_witness :
  exists r,
    record_audio default 0 (six_chunks ++ [tick_at 384 loud_chunk true]) = Some r
    /\ (chunks_read r <= 6)%nat.
Proof.
  eexists. split; [vm_compute; reflexivity|].
  apply (@record_audio_stops_at_cleared_signal default 0
           (six_chunks ++ [tick_at 384 loud_chunk true]) _ 5%nat
           (tick_at 320 loud_chunk false));
    [vm_compute; reflexivity|reflexivity|reflexivity].
Defined.

Lemma record_audio_silence_stop_is_sound_witness :
  exists r pre first mid last,
    record_audio default 0 long_silence = Some r
    /\ stopped_by r = StopSilence
    /\ firstn (chunks_read r) long_silence = pre ++ first :: mid ++ [last]
    /\ (silence_duration default < t_level last - t_level first)%Q.
Proof.
  eexists.
  destruct (@record_audio_silence_stop_is_sound default 0 long_silence _
              ltac:(vm_compute; reflexivity) ltac:(reflexivity))
    as (pre & first & mid & last & Hl & _ & Hd).
  exists pre, first, mid, last.
  split; [vm_compute; reflexivity|]. split; [reflexivity|]. split; assumption.
Defined.

End RecordingExitsWitnesses.

(* ===================================================================== *)
(** * More on strings: trimmed text and side aliases                      *)
(* ===================================================================== *)

Section TrimmedText.

Import WhisperTranscriber.

Lemma lstrip_first (s : string) : is_space (first_char (Str.lstrip s)) = false.
Proof.
  induction s as [|c r IH]; cbn [Str.lstrip]; [reflexivity|].
  destruct (Str.isspace c) eqn:E; [exact IH|]. cbn. exact E.
Qed.

Lemma lstrip_last (s : string) :
  Str.lstrip s = ""%string \/ last_char (Str.lstrip s) = last_char s.
Proof.
  induction s as [|c r IH]; cbn [Str.lstrip]; [auto|].
  destruct (Str.isspace c); [|auto].
  destruct IH as [E|E]; [auto|].
  destruct r as [|c' r']; [left; reflexivity|].
  right. rewrite E. reflexivity.
Qed.

Lemma last_char_rev_append (s : string) :
  forall acc,
    last_char (Str.rev_append s acc)
    = match acc with
      | EmptyString => first_char s
      | _ => last_char acc
      end.
Proof.
  induction s as [|c r IH]; intros acc; cbn [Str.rev_append].
  - destruct acc; reflexivity.
  - rewrite IH. destruct acc; reflexivity.
Qed.

Lemma last_char_some (c : ascii) (r : string) :
  exists x, last_char (String c r) = Some x.
Proof.
  revert c. induction r as [|c' r IH]; intros c; [exists c; reflexivity|].
  destruct (IH c') as [x Hx]. exists x. exact Hx.
Qed.

Lemma first_char_rev_append (s : string) :
  forall acc,
    first_char (Str.rev_append s acc)
    = match last_char s with
      | Some c => Some c
      | None => first_char acc
      end.
Proof.
  induction s as [|c r IH]; intros acc; cbn [Str.rev_append]; [reflexivity|].
  rewrite IH. destruct r as [|c' r']; [reflexivity|].
  change (last_char (String c (String c' r'))) with (last_char (String c' r')).
  destruct (last_char_some c' r') as [x ->]. reflexivity.
Qed.

Lemma strip_trimmed (s : string) : trimmed (Str.strip s).
Proof.
  unfold trimmed, Str.strip, Str.rstrip, Str.rev.
  set (t := Str.lstrip s).
  rewrite first_char_rev_append, last_char_rev_append. cbn [first_char].
  split; [|apply lstrip_first].
  destruct (lstrip_last (Str.rev_append t "")) as [E|E].
  - rewrite E. reflexivity.
  - rewrite E, last_char_rev_append.
    destruct (first_char t) eqn:Ef; [|reflexivity].
    pose proof (lstrip_first s) as H. fold t in H. rewrite Ef in H. exact H.
Qed.

(** X16: [transcribe] gives [None] for absent or empty audio whatever the
    recognizer would do with it, and the text it returns never begins or
    ends with whitespace. *)
Theorem transcribe_returns_trimmed_text :
  (forall model : recognizer,
      transcribe model None = Return None
      /\ transcribe model (Some []) = Return None)
  /\ (forall (model : recognizer) (audio_data : option bytes) (text : string),
         transcribe model audio_data = Return (Some text) -> trimmed text).
Proof.
  split; [intros model; split; reflexivity|].
  intros model [[|b rest]|] text; cbn [transcribe]; try discriminate.
  unfold transcribe_local, bind.
  destruct (model (b :: rest)); [|discriminate].
  intros H. apply Return_inj in H. injection H as <-. apply strip_trimmed.
Qed.

Lemma transcribe_returns_trimmed_text_witness :
  transcribe hello_model (Some loud_chunk) = Return (Some "hello world"%string)
  /\ trimmed "hello world".
Proof.
  split; [reflexivity|].
  apply (proj2 transcribe_returns_trimmed_text hello_model (Some loud_chunk)).
  reflexivity.
Defined.

End TrimmedText.

Section SideAliases.

Import VoiceConfig VoiceInput.

Lemma lower_app (a b : string) :
  Str.lower (a ++ b) = (Str.lower a ++ Str.lower b)%string.
Proof. induction a as [|c a IH]; cbn; [reflexivity|]. rewrite IH. reflexivity. Qed.

Lemma replace_wordlike (w : string) :
  wordlike w = true -> Str.replace "_" " " w = w.
Proof.
  induction w as [|c w IH]; cbn [wordlike Str.replace]; [reflexivity|].
  intros H. apply andb_true_iff in H. destruct H as [H Hw].
  apply andb_true_iff in H. destruct H as [_ Hu].
  apply negb_true_iff in Hu. rewrite Hu, IH; auto.
Qed.

Lemma split_from_word (w : string) :
  wordlike w = true ->
  forall word,
    Str.split_from w word
    = match Str.rev_append w word with
      | EmptyString => []
      | x => [Str.rev x]
      end.
Proof.
  induction w as [|c w IH]; cbn [wordlike Str.split_from Str.rev_append];
    intros H word; [destruct word; reflexivity|].
  apply andb_true_iff in H. destruct H as [H Hw].
  apply andb_true_iff in H. destruct H as [Hs _].
  apply negb_true_iff in Hs. rewrite Hs. apply IH, Hw.
Qed.

Lemma rev_append_rev_append (w : string) :
  forall a b,
    Str.rev_append (Str.rev_append w a) b = Str.rev_append a (w ++ b)%string.
Proof.
  induction w as [|c w IH]; intros a b; cbn [Str.rev_append]; [reflexivity|].
  rewrite IH. reflexivity.
Qed.

Lemma rev_append_nonempty (w : string) :
  forall acc, acc <> ""%string -> Str.rev_append w acc <> ""%string.
Proof.
  induction w as [|c w IH]; intros acc H; cbn [Str.rev_append]; [exact H|].
  apply IH. discriminate.
Qed.

Lemma append_empty_r (w : string) : (w ++ "")%string = w.
Proof. induction w as [|c w IH]; cbn; [reflexivity|]. rewrite IH. reflexivity. Qed.

Lemma split_word (w : string) :
  w <> ""%string -> wordlike w = true -> Str.split_from w "" = [w].
Proof.
  intros Hn Hw. rewrite (split_from_word _ Hw).
  destruct w as [|c w]; [contradiction|]. cbn [Str.rev_append].
  pose proof (@rev_append_nonempty w (String c "") ltac:(discriminate)) as Hne.
  destruct (Str.rev_append w (String c "")) as [|c' x] eqn:E; [contradiction|].
  rewrite <- E. unfold Str.rev.
  change (Str.rev_append w (String c ""))
    with (Str.rev_append (String c w) "").
  rewrite rev_append_rev_append. cbn [Str.rev_append].
  rewrite append_empty_r. reflexivity.
Qed.

(** The alias of a trigger written as side, separator, one-word base. *)
Lemma normalized_side (right underscore : bool) (w : string) :
  w <> ""%string -> wordlike w = true ->
  normalized (side_name right ++ separator underscore ++ w)
  = Some (w ++ side_suffix right)%string.
Proof.
  intros Hn Hw. unfold normalized, Str.split.
  assert (Str.split_from
            (Str.replace "_" " "
               (side_name right ++ separator underscore ++ w)) ""
          = [side_name right; w]) as ->.
  { destruct right, underscore; cbn -[Str.split_from wordlike];
      rewrite (replace_wordlike _ Hw);
      cbn [Str.split_from]; cbn -[Str.split_from];
      rewrite (split_word Hn Hw); reflexivity. }
  destruct right; reflexivity.
Qed.

Lemma append_length (a b : string) :
  String.length (a ++ b) = (String.length a + String.length b)%nat.
Proof. induction a as [|c a IH]; cbn; [reflexivity|]. rewrite IH. reflexivity. Qed.

Lemma append_inj_l (a b c : string) : (a ++ b)%string = (a ++ c)%string -> b = c.
Proof.
  induction a as [|x a IH]; cbn; [auto|]. intros H. injection H as H. auto.
Qed.

(** X17: side aliasing for every modifier: a trigger written "right base" or
    "right_base" matches the key event named "base_r", and never the one
    named "base_l"; likewise for left.  The base is any one-word name, in
    any letter case. *)
Theorem side_alias_matches_its_own_side
    (cfg : VoiceConfig.t) (right underscore : bool) (base : string) :
  base <> ""%string ->
  wordlike (Str.lower base) = true ->
  let trigger :=
    with_push_to_talk_key
      (side_name right ++ separator underscore ++ base) cfg in
  _matches_hotkey trigger (Key (base ++ side_suffix right)) = true
  /\ _matches_hotkey trigger (Key (base ++ side_suffix (negb right))) = false.
Proof.
  intros Hn Hw. cbn zeta. unfold _matches_hotkey, matches_named.
  cbn [key_char key_name Key push_to_talk_key with_push_to_talk_key].
  rewrite !lower_app.
  assert (Str.lower base <> ""%string) as Hn'.
  { destruct base; [contradiction|discriminate]. }
  replace (Str.lower (side_name right)) with (side_name right)
    by (destruct right; reflexivity).
  replace (Str.lower (separator underscore)) with (separator underscore)
    by (destruct underscore; reflexivity).
  replace (Str.lower (side_suffix right)) with (side_suffix right)
    by (destruct right; reflexivity).
  replace (Str.lower (side_suffix (negb right))) with (side_suffix (negb right))
    by (destruct right; reflexivity).
  rewrite (normalized_side right underscore Hn' Hw).
  split.
  - rewrite String.eqb_refl. destruct (String.eqb _ _); reflexivity.
  - destruct (String.eqb_spec
                (Str.lower base ++ side_suffix (negb right))
                (side_name right ++ separator underscore ++ Str.lower base))
      as [E|_].
    + apply (f_equal String.length) in E. rewrite !append_length in E.
      destruct right, underscore; cbn in E; lia.
    + destruct (String.eqb_spec
                  (Str.lower base ++ side_suffix (negb right))
                  (Str.lower base ++ side_suffix right)) as [E|_];
        [|reflexivity].
      apply append_inj_l in E. destruct right; discriminate.
Qed.

Lemma side_alias_matches_its_own_side_witness :
  _matches_hotkey (with_push_to_talk_key "left Ctrl" VoiceConfig.default)
    (Key "Ctrl_l") = true
  /\ _matches_hotkey (with_push_to_talk_key "left Ctrl" VoiceConfig.default)
       (Key "Ctrl_r") = false.
Proof.
  apply (@side_alias_matches_its_own_side VoiceConfig.default false false
           "Ctrl"%string); [discriminate|reflexivity].
Defined.

End SideAliases.

(* ===================================================================== *)
(** * The value of a rounded product: the level bar stays in its frame    *)
(* ===================================================================== *)

Section LevelBar.

Import AudioRecorder.

Lemma sticky_loc (mrs : shr_record) :
  loc_of_shr_record mrs <> loc_Exact -> sticky mrs = true.
Proof. destruct mrs as [m [|] [|]]; cbn; congruence. Qed.

Lemma shr_1_floor (m0 k : Z) (mrs : shr_record) :
  0 <= k -> floor_of m0 k mrs -> floor_of m0 (k + 1) (shr_1 mrs).
Proof.
  intros Hk (Hm & Hle & Hs). unfold floor_of.
  rewrite Z.pow_add_r by lia. change (2 ^ 1) with 2.
  assert (0 < 2 ^ k) as HP by (apply Z.pow_pos_nonneg; lia).
  set (P := 2 ^ k) in *.
  destruct mrs as [m r s]. unfold sticky in *. cbn [shr_m shr_r shr_s] in *.
  destruct m as [|[p|p|]|p]; cbn [shr_1 shr_m shr_r shr_s orb]; try lia;
    (split; [lia|]); (split; [nia|]); intros H;
    try (specialize (Hs H)); nia.
Qed.

Lemma iter_shr_1_floor (m0 : Z) (p : positive) :
  forall k mrs,
    0 <= k -> floor_of m0 k mrs ->
    floor_of m0 (k + Z.pos p) (iter_pos shr_1 p mrs).
Proof.
  induction p as [p IH|p IH|]; intros k mrs Hk H; cbn [iter_pos].
  - apply shr_1_floor in H; [|lia]. apply IH in H; [|lia].
    apply IH in H; [|lia].
    replace (k + Z.pos p~1) with (k + 1 + Z.pos p + Z.pos p) by lia. exact H.
  - apply IH in H; [|lia]. apply IH in H; [|lia].
    replace (k + Z.pos p~0) with (k + Z.pos p + Z.pos p) by lia. exact H.
  - apply shr_1_floor; assumption.
Qed.

(** [shr_fexp] on an exact mantissa: the shift is a floor, strictly below
    when the record says bits were lost. *)
Lemma shr_fexp_floor (m e : Z) :
  0 <= m ->
  let '(mrs, e') := shr_fexp prec emax m e loc_Exact in
  exists n,
    0 <= n /\ e' = e + n
    /\ (n = 0 \/ e' = Z.max (Zdigits2 m + e - 53) (-1074))
    /\ floor_of m n mrs.
Proof.
  intros Hm. unfold shr_fexp, shr. cbn [shr_record_of_loc].
  assert (floor_of m 0 {| shr_m := m; shr_r := false; shr_s := false |}) as H0.
  { unfold floor_of, sticky. cbn. split; [lia|]. split; [lia|discriminate]. }
  destruct (fexp prec emax (Zdigits2 m + e) - e) as [|p|p] eqn:En;
    unfold fexp, emin, prec, emax in En.
  - exists 0. split; [lia|]. split; [lia|]. split; [left; reflexivity|exact H0].
  - exists (Z.pos p). split; [lia|]. split; [reflexivity|]. split; [right; lia|].
    apply (iter_shr_1_floor p) in H0; [|lia]. exact H0.
  - exists 0. split; [lia|]. split; [lia|]. split; [left; reflexivity|exact H0].
Qed.

(** A mantissa below [30 * 2^-e] has at most [5 - e] digits. *)
Lemma digits_below_30 (m e : Z) :
  0 <= m -> e <= 0 -> m <= 30 * 2 ^ (- e) -> Zdigits2 m + e <= 5.
Proof.
  intros Hm He H.
  assert (Zdigits2 m <= 5 - e); [|lia].
  apply Zdigits2_le; try lia.
  replace (5 - e) with (5 + - e) by lia. rewrite Z.pow_add_r by lia.
  assert (0 < 2 ^ (- e)) by (apply Z.pow_pos_nonneg; lia).
  change (2 ^ 5) with 32. lia.
Qed.

(** Rounding an exact value that is at most 30 gives a finite value that is
    at most 30. *)
Lemma binary_round_aux_le_30 (m e : Z) :
  0 <= m -> e <= -48 -> m <= 30 * 2 ^ (- e) ->
  match binary_round_aux prec emax false m e loc_Exact with
  | S754_zero _ => True
  | S754_finite _ m' e' => e' <= -48 /\ Z.pos m' <= 30 * 2 ^ (- e')
  | _ => False
  end.
Proof.
  intros Hm He Hle. unfold binary_round_aux.
  pose proof (@digits_below_30 m e Hm ltac:(lia) Hle) as Hd.
  pose proof (shr_fexp_floor e Hm) as H1.
  destruct (shr_fexp prec emax m e loc_Exact) as [mrs1 e1].
  destruct H1 as (n1 & Hn1 & -> & Hc1 & Hm1 & Hf1 & Hs1).
  assert (e + n1 <= -48) as He1 by lia.
  assert (0 < 2 ^ n1) as HP1 by (apply Z.pow_pos_nonneg; lia).
  assert (2 ^ (- e) = 2 ^ (- (e + n1)) * 2 ^ n1) as Hsplit1.
  { rewrite <- Z.pow_add_r by lia. f_equal. lia. }
  set (m1 := round_nearest_even (shr_m mrs1) (loc_of_shr_record mrs1)).
  assert (0 <= m1 <= 30 * 2 ^ (- (e + n1))) as Hb1.
  { assert (shr_m mrs1 <= 30 * 2 ^ (- (e + n1))) as Hfl.
    { rewrite Hsplit1 in Hle. nia. }
    assert (loc_of_shr_record mrs1 <> loc_Exact ->
            shr_m mrs1 + 1 <= 30 * 2 ^ (- (e + n1))) as Hup.
    { intros Hl. apply sticky_loc, Hs1 in Hl. rewrite Hsplit1 in Hle. nia. }
    unfold m1, round_nearest_even.
    destruct (loc_of_shr_record mrs1) as [|[| |]];
      try destruct (Z.even (shr_m mrs1)); split; try lia;
      apply Hup; discriminate. }
  clearbody m1.
  pose proof (@digits_below_30 m1 (e + n1) (proj1 Hb1) ltac:(lia) (proj2 Hb1))
    as Hd1.
  pose proof (@shr_fexp_floor m1 (e + n1) (proj1 Hb1)) as H2.
  destruct (shr_fexp prec emax m1 (e + n1) loc_Exact) as [mrs2 e2].
  destruct H2 as (n2 & Hn2 & -> & Hc2 & Hm2 & Hf2 & _).
  assert (e + n1 + n2 <= -48) as He2 by lia.
  assert (0 < 2 ^ n2) as HP2 by (apply Z.pow_pos_nonneg; lia).
  assert (2 ^ (- (e + n1)) = 2 ^ (- (e + n1 + n2)) * 2 ^ n2) as Hsplit2.
  { rewrite <- Z.pow_add_r by lia. f_equal. lia. }
  destruct (shr_m mrs2) as [|p|p] eqn:Em; [exact I| |lia].
  assert (Z.leb (e + n1 + n2) (emax - prec) = true) as ->.
  { apply Z.leb_le. unfold emax, prec. lia. }
  split; [exact He2|]. destruct Hb1 as [_ Hb1]. rewrite Hsplit2 in Hb1. nia.
Qed.

Lemma to_int_le_30 (m : positive) (e : Z) :
  e <= -48 -> Z.pos m <= 30 * 2 ^ (- e) ->
  exists n, to_int (S754_finite false m e) = Some n /\ 0 <= n <= 30.
Proof.
  intros He H. cbn [to_int]. destruct e as [|p|p]; try lia.
  eexists. split; [reflexivity|].
  rewrite Z.shiftr_div_pow2 by lia.
  change (- Z.neg p) with (Z.pos p) in H.
  assert (0 < 2 ^ Z.pos p) by (apply Z.pow_pos_nonneg; lia).
  split; [apply Z.div_pos; lia|].
  apply Z.div_le_upper_bound; lia.
Qed.

(** The number of filled cells of the bar. *)
Lemma filled_cells_in_frame (x : float64) :
  isnan x = false -> leb zero x = true -> ltb (of_Z 1) x = false ->
  (forall s m e, x = S754_finite s m e -> Z.pos (digits2_pos m) <= 53) ->
  exists n, to_int (mul (of_Z 30) x) = Some n /\ 0 <= n <= 30.
Proof.
  intros Hnan Hpos Hle Hdig.
  destruct x as [s|s| |s m e]; try discriminate.
  - destruct s; cbn; eexists; split; try reflexivity; lia.
  - destruct s; discriminate.
  - destruct s; [discriminate|].
    specialize (Hdig false m e eq_refl).
    assert (e <= -52 /\ (e = -52 -> Z.pos m <= 4503599627370496)) as [He Hm].
    { change (of_Z 1) with (S754_finite false 4503599627370496 (-52)) in Hle.
      unfold ltb, SFltb, SFcompare in Hle.
      destruct (Z.compare_spec (-52) e) as [E|E|E]; try discriminate;
        [|lia].
      subst e. split; [lia|]. intros _.
      change (Pos.compare_cont Eq 4503599627370496 m)
        with (Pos.compare 4503599627370496 m) in Hle.
      destruct (Pos.compare_spec 4503599627370496 m) as [<-|H|H];
        [apply Z.le_refl|discriminate|].
      exact (Z.lt_le_incl (Z.pos m) (Z.pos 4503599627370496) H). }
    assert (Z.pos m <= 2 ^ (- e)) as Hval.
    { destruct (Z.eq_dec e (-52)) as [->|Hne]; [apply Hm; reflexivity|].
      pose proof (@Zdigits2_gt (Z.pos m) ltac:(lia)) as Hg.
      cbn [Zdigits2] in Hg.
      assert (2 ^ Z.pos (digits2_pos m) <= 2 ^ (- e)); [|lia].
      apply Z.pow_le_mono_r; lia. }
    change (of_Z 30) with (S754_finite false 8444249301319680 (-48)).
    unfold mul, SFmul. cbn [xorb].
    assert (Z.pos (8444249301319680 * m) <= 30 * 2 ^ (- (-48 + e))) as Hprod.
    { replace (- (-48 + e)) with (48 + - e) by lia.
      rewrite Z.pow_add_r by lia. rewrite Pos2Z.inj_mul.
      change (2 ^ 48) with 281474976710656.
      change (Z.pos 8444249301319680) with (30 * 281474976710656). nia. }
    pose proof (@binary_round_aux_le_30 (Z.pos (8444249301319680 * m))
                  (-48 + e) ltac:(lia) ltac:(lia) Hprod) as Hr.
    pose proof (binary_round_aux_positive
                  (Z.pos (8444249301319680 * m)) (-48 + e) loc_Exact) as Hs.
    destruct (binary_round_aux prec emax false
                (Z.pos (8444249301319680 * m)) (-48 + e) loc_Exact)
      as [s|s| |s m' e']; try contradiction.
    + eexists. split; [reflexivity|]. lia.
    + subst s. destruct Hr as [He' Hm']. apply to_int_le_30; assumption.
Qed.

End LevelBar.

Section LevelBarFrame.

Import AudioRecorder.

(** The ratio of a finite level to the full scale. *)
Lemma level_ratio_facts (level : float64) :
  finite_nonneg level ->
  let x := div level max_level_default in
  isnan x = false /\ leb zero x = true
  /\ forall s m e, x = S754_finite s m e -> Z.pos (digits2_pos m) <= 53.
Proof.
  intros (Hnan & Hinf & Hpos). cbn zeta.
  change max_level_default with (S754_finite false 5497558138880000 (-40)).
  destruct level as [s|s| |s m e]; try discriminate.
  - cbn. repeat split; auto; discriminate.
  - destruct s; [discriminate|].
    unfold div, SFdiv. cbn [xorb].
    pose proof (SFdiv_core_binary_nonneg m 5497558138880000 e (-40)) as Hq.
    destruct (SFdiv_core_binary prec emax (Z.pos m) e
                (Z.pos 5497558138880000) (-40)) as [[mz ez] lz].
    cbn [fst] in Hq.
    pose proof (@binary_round_aux_bounds false mz ez lz Hq) as (Hn & Hd & _).
    pose proof (binary_round_aux_positive mz ez lz) as Hs.
    destruct (binary_round_aux prec emax false mz ez lz) as [s|s| |s m' e'];
      subst; cbn; repeat split; auto; try discriminate.
    intros s0 m0 e0 E. injection E as <- <- <-.
    exact (proj1 (Hd false m' e' eq_refl)).
Qed.

(** X18: whatever the level, the bar has between 0 and 30 filled cells and is 30
    cells long. *)
Theorem draw_audio_level_bar_in_frame (level : float64) :
  finite_nonneg level ->
  exists bar,
    draw_audio_level level max_level_default = Return bar
    /\ 0 <= bar_filled bar <= 30
    /\ 0 <= bar_empty bar <= 30
    /\ bar_filled bar + bar_empty bar = 30.
Proof.
  intros H. destruct (level_ratio_facts H) as (Hxn & Hx0 & Hxd).
  unfold draw_audio_level.
  set (x := div level max_level_default) in *. clearbody x. unfold py_min.
  destruct (ltb (of_Z 1) x) eqn:Hlt.
  - change (to_int (mul (of_Z 30) (of_Z 1))) with (Some 30).
    eexists. split; [reflexivity|]. cbn [bar_filled bar_empty]. lia.
  - destruct (filled_cells_in_frame Hxn Hx0 Hlt Hxd) as (n & Hn & Hb).
    rewrite Hn. eexists. split; [reflexivity|]. cbn [bar_filled bar_empty].
    lia.
Qed.

Lemma draw_audio_level_bar_in_frame_witness :
  exists bar,
    draw_audio_level (of_Z 2500) max_level_default = Return bar
    /\ 0 <= bar_filled bar <= 30
    /\ 0 <= bar_empty bar <= 30
    /\ bar_filled bar + bar_empty bar = 30.
Proof.
  apply (@draw_audio_level_bar_in_frame (of_Z 2500)).
  repeat split.
Defined.

End LevelBarFrame.

(* ===================================================================== *)
(** * Digital silence                                                     *)
(* ===================================================================== *)

Section DigitalSilence.

Import AudioRecorder.

Lemma shr_1_at_least (d : Z) (mrs : shr_record) :
  at_least d mrs -> at_least (d - 1) (shr_1 mrs).
Proof.
  destruct mrs as [m r s]. unfold at_least, shr_1. cbn [shr_m].
  destruct m as [|[p|p|]|p]; cbn [shr_m Zdigits2 digits2_pos]; lia.
Qed.

Lemma iter_shr_1_at_least (p : positive) :
  forall d mrs,
    at_least d mrs -> at_least (d - Z.pos p) (iter_pos shr_1 p mrs).
Proof.
  induction p as [p IH|p IH|]; intros d mrs H; cbn [iter_pos].
  - apply shr_1_at_least, IH, IH in H.
    replace (d - Z.pos p~1) with (d - 1 - Z.pos p - Z.pos p) by lia. exact H.
  - apply IH, IH in H.
    replace (d - Z.pos p~0) with (d - Z.pos p - Z.pos p) by lia. exact H.
  - apply shr_1_at_least, H.
Qed.

(** Above the smallest exponent a positive mantissa stays positive. *)
Lemma shr_fexp_positive (m e : Z) (l : location) :
  0 < m -> -1074 <= e ->
  let '(mrs, e') := shr_fexp prec emax m e l in
  0 < shr_m mrs /\ -1074 <= e'.
Proof.
  intros Hm He. unfold shr_fexp, shr.
  assert (1 <= Zdigits2 m) as Hd by (destruct m; cbn; lia).
  assert (at_least (Zdigits2 m) (shr_record_of_loc m l)) as Hat.
  { unfold at_least. rewrite shr_m_of_loc. lia. }
  destruct (fexp prec emax (Zdigits2 m + e) - e) as [|p|p] eqn:En;
    unfold fexp, emin, prec, emax in En.
  - rewrite shr_m_of_loc. lia.
  - apply (iter_shr_1_at_least p) in Hat. destruct Hat as [H0 H1].
    assert (1 <= Zdigits2 (shr_m (iter_pos shr_1 p (shr_record_of_loc m l))))
      as H2 by lia.
    split; [|lia].
    destruct (shr_m (iter_pos shr_1 p (shr_record_of_loc m l)));
      cbn in H2; lia.
  - rewrite shr_m_of_loc. lia.
Qed.

Lemma binary_round_aux_nonzero (m e : Z) (l : location) :
  0 < m -> -1074 <= e ->
  match binary_round_aux prec emax false m e l with
  | S754_finite s _ _ | S754_infinity s => s = false
  | _ => False
  end.
Proof.
  intros Hm He. unfold binary_round_aux.
  pose proof (@shr_fexp_positive m e l Hm He) as H1.
  destruct (shr_fexp prec emax m e l) as [mrs1 e1]. destruct H1 as [Hm1 He1].
  pose proof (@round_nearest_even_bounds (shr_m mrs1) (loc_of_shr_record mrs1)
                ltac:(lia)) as Hr.
  assert (0 < round_nearest_even (shr_m mrs1) (loc_of_shr_record mrs1)) as Hr1.
  { unfold round_nearest_even.
    destruct (loc_of_shr_record mrs1) as [|[| |]];
      try destruct (Z.even (shr_m mrs1)); lia. }
  pose proof (@shr_fexp_positive _ e1 loc_Exact Hr1 He1) as H2.
  destruct (shr_fexp prec emax _ e1 loc_Exact) as [mrs2 e2].
  destruct H2 as [Hm2 _].
  destruct (shr_m mrs2); try lia.
  destruct (Z.leb e2 (Z.sub emax prec)); reflexivity.
Qed.

(** The count of a non-empty array, as a float, is positive: finite or
    infinite, never zero and never NaN. *)
Lemma of_Z_positive (p : positive) :
  match of_Z (Z.pos p) with
  | S754_finite s _ _ | S754_infinity s => s = false
  | _ => False
  end.
Proof.
  unfold of_Z, binary_normalize, binary_round, shl_align.
  set (e' := fexp prec emax (Z.pos (digits2_pos p) + 0)).
  assert (-1074 <= e') as He'.
  { unfold e', fexp, emin, prec, emax. lia. }
  destruct (e' - 0) as [|d|d] eqn:Ed;
    apply binary_round_aux_nonzero; lia.
Qed.

Lemma sum_of_zeros (l : list float64) :
  Forall (fun x => x = zero) l -> sum l = zero.
Proof.
  unfold sum. induction l as [|x l IH]; intros H; [reflexivity|].
  inversion H; subst. cbn [fold_left]. exact (IH H3).
Qed.

Lemma rms_of_zeros (samples : list Z) :
  samples <> [] -> Forall (fun v => v = 0) samples -> rms_of samples = zero.
Proof.
  intros Hne H. unfold rms_of, mean.
  rewrite sum_of_zeros.
  - rewrite !length_map.
    destruct samples as [|v samples]; [contradiction|].
    cbn [List.length]. rewrite Nat2Z.inj_succ.
    destruct (Z.succ (Z.of_nat (List.length samples))) as [|p|p] eqn:E; try lia.
    pose proof (of_Z_positive p) as Hp.
    destruct (of_Z (Z.pos p)) as [s|s| |s m e]; try contradiction; subst;
      reflexivity.
  - rewrite Forall_map, Forall_map. revert H. apply Forall_impl.
    intros v ->. reflexivity.
Qed.

Lemma frombuffer_zeros :
  forall data : bytes,
    (Forall (fun b => b = x00) data ->
     forall samples, frombuffer_int16 data = Return samples ->
                     Forall (fun v => v = 0) samples)
    /\ (forall b, Forall (fun b => b = x00) (b :: data) ->
                  forall samples, frombuffer_int16 (b :: data) = Return samples ->
                                  Forall (fun v => v = 0) samples).
Proof.
  induction data as [|b' data [IH1 IH2]].
  - split.
    + intros _ samples H. injection H as <-. constructor.
    + intros b _ samples H. discriminate.
  - split.
    + apply IH2.
    + intros b H samples. cbn [frombuffer_int16].
      inversion H as [|? ? Hb H']; subst. inversion H' as [|? ? Hb' H'']; subst.
      destruct (frombuffer_int16 data) as [rest|e] eqn:E; cbn [bind];
        [|discriminate].
      intros Hs. injection Hs as <-. constructor; [reflexivity|].
      exact (IH1 H'' rest eq_refl).
Qed.

(** X19: digital silence reads as level 0.0: a buffer of zero bytes, of any
    length, has the level [zero] exactly. *)
Theorem get_audio_level_of_zero_bytes (data : bytes) :
  Forall (fun b => b = x00) data -> get_audio_level data = Return zero.
Proof.
  intros H. unfold get_audio_level, get_audio_level_body.
  destruct (frombuffer_int16 data) as [samples|e] eqn:E; cbn [bind try_except];
    [|reflexivity].
  pose proof (proj1 (frombuffer_zeros data) H samples E) as Hz.
  destruct samples as [|v samples]; [reflexivity|].
  cbn [List.length Nat.eqb].
  rewrite rms_of_zeros; [reflexivity|discriminate|exact Hz].
Qed.

Lemma get_audio_level_of_zero_bytes_witness :
  get_audio_level (repeat x00 6) = Return zero.
Proof.
  apply (@get_audio_level_of_zero_bytes (repeat x00 6)).
  repeat constructor.
Defined.

End DigitalSilence.

(* ===================================================================== *)
(** * The key held down over loud audio                                   *)
(* ===================================================================== *)

Section KeyHeld.

Import VoiceConfig AudioRecorder.

Variable cfg : VoiceConfig.t.
Variable start : Q.



End KeyHeld.

Section KeyHeldWitness.

Import VoiceConfig AudioRecorder.


End KeyHeldWitness.
